(** * stevedore: name-filtered extension managers and the single-driver manager

    A shallow embedding of [stevedore/named.py] and [stevedore/driver.py].
    Python objects are records, methods are functions taking [self], the
    class of an object is a tag on which overridden methods dispatch, and
    the effects of loading (resolving an entry point, calling a plugin,
    logging, raising) are threaded through a small state-and-exception
    monad whose state is the trace of effects performed so far. *)

From Stdlib Require Import String Ascii List Bool Arith ZArith Lia.
From Stdlib Require Import Permutation Sorted.
Import ListNotations.
Local Open Scope string_scope.

(** ** Python values *)

(** The values a plugin, an instantiated object or a callback result can
    be.  [VClass] stands for a class or function object, [VInstance] for an
    instance of a user class; its boolean is what the truth protocol
    ([__nonzero__] / [__bool__] / [__len__]) of the instance answers, [true]
    when the class defines none of them. *)
#[warnings="-register-all"]
Inductive value : Type :=
| VNone
| VBool (b : bool)
| VInt (n : Z)
| VStr (s : string)
| VList (l : list value)
| VClass (qualname : string)
| VInstance (cls : string) (nonzero : bool).

(** Truth value testing, as done by [x if c else y] and [if c:]. *)
Definition truthy (v : value) : bool :=
  match v with
  | VNone => false
  | VBool b => b
  | VInt n => negb (n =? 0)%Z
  | VStr s => negb (String.eqb s EmptyString)
  | VList l => match l with [] => false | _ :: _ => true end
  | VClass _ => true
  | VInstance _ nz => nz
  end.

Definition args := list value.
Definition kwds := list (string * value).

(** ** Exceptions *)

(** An exception instance: its class and [str(err)]. *)
Record exn : Type := Exn { exc_type : string; exc_msg : string }.

Definition RuntimeError (msg : string) : exn := Exn "RuntimeError" msg.
Definition TypeError (msg : string) : exn := Exn "TypeError" msg.
Definition IndexError (msg : string) : exn := Exn "IndexError" msg.
Definition ValueError (msg : string) : exn := Exn "ValueError" msg.
Definition AttributeError (msg : string) : exn := Exn "AttributeError" msg.

Inductive result (A : Type) : Type :=
| Ok (a : A)
| Raise (e : exn).
Arguments Ok {A} a.
Arguments Raise {A} e.

(** ** Effects *)

(** What the outside world can observe of a manager at work. *)
Inductive event : Type :=
| Resolve (name target : string)      (* ep.load() was called *)
| Invoke (name target : string)       (* the resolved plugin was called *)
| LogError (name : string) (e : exn)  (* an isolated failure was logged *)
| Callback (name : string).           (* map called func on an extension *)

Definition trace := list event.

(** A computation runs from a trace to a result and an extended trace. *)
Definition M (A : Type) : Type := trace -> result A * trace.

Definition ret {A} (a : A) : M A := fun t => (Ok a, t).
Definition raise {A} (e : exn) : M A := fun t => (Raise e, t).
Definition emit (ev : event) : M unit := fun t => (Ok tt, (t ++ [ev])%list).
Definition lift {A} (r : result A) : M A := fun t => (r, t).

Definition bind {A B} (m : M A) (k : A -> M B) : M B :=
  fun t => match m t with
           | (Ok a, t') => k a t'
           | (Raise e, t') => (Raise e, t')
           end.

(** [try: m] with a handler [h] for whatever is raised: the isolation the
    spec describes for the base class ("any error [...] caught"). *)
Definition try_except {A} (m : M A) (h : exn -> M A) : M A :=
  fun t => match m t with
           | (Ok a, t') => (Ok a, t')
           | (Raise e, t') => h e t'
           end.

Declare Scope py_scope.
Delimit Scope py_scope with py.
Notation "x <- m ;; k" := (bind m (fun x => k))
  (at level 61, m at next level, right associativity) : py_scope.
Notation "m ;;; k" := (bind m (fun _ => k))
  (at level 61, right associativity) : py_scope.
Local Open Scope py_scope.

(** ** Strings: [in], [list.index], [%r] and [str.join] *)

(** [x in l] for a list of strings. *)
Definition py_in (x : string) (l : list string) : bool :=
  existsb (String.eqb x) l.

(** [l.index(x)]: the position of the first element equal to [x];
    [None] stands for the [ValueError] Python raises. *)
Fixpoint list_index (x : string) (l : list string) : option nat :=
  match l with
  | [] => None
  | y :: l' =>
      if String.eqb y x then Some 0
      else match list_index x l' with
           | Some i => Some (S i)
           | None => None
           end
  end.

(** [lambda x: names.index(x)] as a sort key on names. *)
Definition index_key (names : list string) (x : string) : result nat :=
  match list_index x names with
  | Some i => Ok i
  | None => Raise (ValueError "x not in list")
  end.

(** [isinstance(e, Exception)], on the class name: of the builtin
    exceptions, [KeyboardInterrupt], [SystemExit] and [GeneratorExit] derive
    from [BaseException] only. *)
Definition is_Exception (e : exn) : bool :=
  negb (py_in (exc_type e)
          ["BaseException"; "KeyboardInterrupt"; "SystemExit";
           "GeneratorExit"]).

(** [try: m  except Exception as err: h err]: what is not an [Exception]
    goes through. *)
Definition try_except_Exception {A} (m : M A) (h : exn -> M A) : M A :=
  fun t => match m t with
           | (Ok a, t') => (Ok a, t')
           | (Raise e, t') => if is_Exception e then h e t' else (Raise e, t')
           end.

(** [l[0]] on something that may be [None], a list, or an empty list. *)
Definition subscript0 (l : option (list string)) : result string :=
  match l with
  | None => Raise (TypeError "'NoneType' object is not subscriptable")
  | Some [] => Raise (IndexError "list index out of range")
  | Some (x :: _) => Ok x
  end.

Definition squote : ascii := ascii_of_nat 39.
Definition dquote : ascii := ascii_of_nat 34.
Definition backslash : ascii := ascii_of_nat 92.

Fixpoint contains_char (c : ascii) (s : string) : bool :=
  match s with
  | EmptyString => false
  | String d s' => Ascii.eqb c d || contains_char c s'
  end.

Definition hex_digit (n : nat) : ascii :=
  nth n (list_ascii_of_string "0123456789abcdef") "0"%char.

(** One character of [repr(s)] for a byte string, inside [quote]s. *)
Definition repr_char (quote c : ascii) : string :=
  let n := nat_of_ascii c in
  if Ascii.eqb c quote || Ascii.eqb c backslash
  then String backslash (String c EmptyString)
  else if (n =? 9)%nat then String backslash "t"
  else if (n =? 10)%nat then String backslash "n"
  else if (n =? 13)%nat then String backslash "r"
  else if (n <? 32)%nat || (127 <=? n)%nat
  then String backslash
         (String "x" (String (hex_digit (n / 16))
                        (String (hex_digit (n mod 16)) EmptyString)))
  else String c EmptyString.

Fixpoint repr_body (quote : ascii) (s : string) : string :=
  match s with
  | EmptyString => EmptyString
  | String c s' => repr_char quote c ++ repr_body quote s'
  end.

(** [repr(s)], what [%r] formats: single quotes unless the string holds a
    single quote and no double quote. *)
Definition repr (s : string) : string :=
  let quote :=
    if contains_char squote s && negb (contains_char dquote s)
    then dquote else squote in
  String quote (repr_body quote s ++ String quote EmptyString).

(** [sep.join(l)] *)
Definition join (sep : string) (l : list string) : string :=
  String.concat sep l.

(** ** Entry points and extensions *)

(** A descriptor handed out by the discovery collaborator: its name, the
    printable target, what resolving it gives, and what calling the
    resolved plugin with given arguments gives. *)
Record EntryPoint : Type := {
  ep_name : string;
  ep_target : string;
  ep_load : result value;
  ep_call : args -> kwds -> result value
}.

(** Modelled from the spec: the [Extension] record of
    [stevedore/extension.py], "one successfully resolved plugin": [name],
    [entry_point_target], [plugin] (the resolved class or callable) and
    [obj] (the instantiated object; the attribute holds [None] when
    invocation was not requested). *)
Record Extension : Type := {
  name : string;
  entry_point_target : string;
  plugin : value;
  obj : value
}.

(** ** Manager objects *)

Inductive class : Type :=
| ExtensionManager
| NamedExtensionManager
| DriverManager.

(** The attributes of a manager.  [_names] is [None] while the attribute
    has not been assigned (it is assigned by
    [NamedExtensionManager.__init__] only). *)
Record Manager : Type := {
  cls : class;
  namespace : string;
  _names : option (list string);
  extensions : list Extension;
  propagate_map_exceptions : bool
}.

(** [cls.__new__(cls)]: an object with nothing assigned yet. *)
Definition new (c : class) : Manager :=
  {| cls := c; namespace := EmptyString; _names := None;
     extensions := []; propagate_map_exceptions := false |}.

Definition set_namespace (self : Manager) (ns : string) : Manager :=
  {| cls := cls self; namespace := ns; _names := _names self;
     extensions := extensions self;
     propagate_map_exceptions := propagate_map_exceptions self |}.

Definition set__names (self : Manager) (ns : list string) : Manager :=
  {| cls := cls self; namespace := namespace self; _names := Some ns;
     extensions := extensions self;
     propagate_map_exceptions := propagate_map_exceptions self |}.

Definition set_extensions (self : Manager) (es : list Extension) : Manager :=
  {| cls := cls self; namespace := namespace self; _names := _names self;
     extensions := es;
     propagate_map_exceptions := propagate_map_exceptions self |}.

Definition set_propagate_map_exceptions (self : Manager) (b : bool) : Manager :=
  {| cls := cls self; namespace := namespace self; _names := _names self;
     extensions := extensions self; propagate_map_exceptions := b |}.

(** [self._names] as an attribute read. *)
Definition get__names (self : Manager) : result (list string) :=
  match _names self with
  | Some l => Ok l
  | None => Raise (AttributeError "object has no attribute '_names'")
  end.

(** ** Sorting: [list.sort(key=...)] *)

(** [list.sort] first computes the key of every element, left to right (an
    exception raised by the key function leaves the list as it was), then
    sorts stably on the keys.  Every stable sort gives the same list; this
    one is the insertion sort. *)
Section ListSort.
Context {A : Type}.

Fixpoint decorate (key : A -> result nat) (l : list A) : result (list (nat * A)) :=
  match l with
  | [] => Ok []
  | x :: l' =>
      match key x with
      | Raise e => Raise e
      | Ok k =>
          match decorate key l' with
          | Raise e => Raise e
          | Ok d => Ok ((k, x) :: d)
          end
      end
  end.

(** [insert_by_key k x l] puts [x] in front of the first element whose key
    is not smaller than [k]: an element stays in front of the equal-keyed
    elements that followed it. *)
Fixpoint insert_by_key (k : nat) (x : A) (l : list (nat * A)) : list (nat * A) :=
  match l with
  | [] => [(k, x)]
  | (k', y) :: l' =>
      if (k' <? k)%nat then (k', y) :: insert_by_key k x l'
      else (k, x) :: (k', y) :: l'
  end.

Fixpoint sort_decorated (l : list (nat * A)) : list (nat * A) :=
  match l with
  | [] => []
  | (k, x) :: l' => insert_by_key k x (sort_decorated l')
  end.

Definition list_sort (key : A -> result nat) (l : list A) : result (list A) :=
  match decorate key l with
  | Raise e => Raise e
  | Ok d => Ok (map snd (sort_decorated d))
  end.

End ListSort.

(** ** The three manager classes *)

Section Managers.

(** The discovery collaborator: the entry points registered under a
    namespace, in the order it yields them. *)
Variable iter_entry_points : string -> list EntryPoint.

(** *** ExtensionManager (base class) *)

(** Modelled from the spec: [ExtensionManager._load_one_plugin] of
    [stevedore/extension.py] (base policy, accept all): "resolves its target
    and, if [invoke_on_load], instantiates it by calling the target with
    [invoke_args]/[invoke_kwds], producing an [Extension]". *)
Definition ExtensionManager__load_one_plugin (ep : EntryPoint)
    (invoke_on_load : bool) (invoke_args : args) (invoke_kwds : kwds)
  : M (option Extension) :=
  emit (Resolve (ep_name ep) (ep_target ep)) ;;;
  plugin <- lift (ep_load ep) ;;
  obj <- (if invoke_on_load
          then emit (Invoke (ep_name ep) (ep_target ep)) ;;;
               lift (ep_call ep invoke_args invoke_kwds)
          else ret VNone) ;;
  ret (Some {| name := ep_name ep; entry_point_target := ep_target ep;
               plugin := plugin; obj := obj |}).

(** [NamedExtensionManager._load_one_plugin] (named.py, lines 44-52). *)
Definition NamedExtensionManager__load_one_plugin (self : Manager)
    (ep : EntryPoint) (invoke_on_load : bool) (invoke_args : args)
    (invoke_kwds : kwds) : M (option Extension) :=
  names <- lift (get__names self) ;;
  if negb (py_in (ep_name ep) names) then ret None
  else ExtensionManager__load_one_plugin ep invoke_on_load invoke_args
         invoke_kwds.

(** [self._load_one_plugin(...)]: method resolution on the class of [self]
    ([DriverManager] inherits the method of [NamedExtensionManager]). *)
Definition self__load_one_plugin (self : Manager) (ep : EntryPoint)
    (invoke_on_load : bool) (invoke_args : args) (invoke_kwds : kwds)
  : M (option Extension) :=
  match cls self with
  | ExtensionManager =>
      ExtensionManager__load_one_plugin ep invoke_on_load invoke_args
        invoke_kwds
  | NamedExtensionManager | DriverManager =>
      NamedExtensionManager__load_one_plugin self ep invoke_on_load
        invoke_args invoke_kwds
  end.

(** The loop of [_load_plugins] over the discovered entry points,
    [extensions] being the list built so far. *)
Fixpoint load_loop (self : Manager) (invoke_on_load : bool)
    (invoke_args : args) (invoke_kwds : kwds) (catch_exception : bool)
    (eps : list EntryPoint) (extensions : list Extension)
  : M (list Extension) :=
  match eps with
  | [] => ret extensions
  | ep :: eps' =>
      ext <- try_except
               (self__load_one_plugin self ep invoke_on_load invoke_args
                  invoke_kwds)
               (fun err =>
                  if catch_exception
                  then emit (LogError (ep_name ep) err) ;;; ret None
                  else raise err) ;;
      load_loop self invoke_on_load invoke_args invoke_kwds catch_exception
        eps'
        (match ext with
         | Some e => (extensions ++ [e])%list
         | None => extensions
         end)
  end.

(** Modelled from the spec: [ExtensionManager._load_plugins] of
    [stevedore/extension.py]: "queries the discovery collaborator for all
    descriptors registered under [namespace]; for each descriptor, applies
    a virtual per-plugin accept/reject decision; [...] any error during
    resolution/instantiation of one descriptor is, by default, caught,
    logged, and that descriptor is skipped [...] unless the
    caller-controlled [catch_exception] toggle is false, in which case the
    first such error aborts construction entirely by propagating".  The
    spec gives the [names] argument, which driver.py passes on, no role
    here. *)
Definition ExtensionManager__load_plugins (self : Manager)
    (invoke_on_load : bool) (invoke_args : args) (invoke_kwds : kwds)
    (names : option (list string)) (catch_exception : bool)
  : M (list Extension) :=
  load_loop self invoke_on_load invoke_args invoke_kwds catch_exception
    (iter_entry_points (namespace self)) [].

(** Modelled from the spec: [ExtensionManager._init_plugins] of
    [stevedore/extension.py], which "stores the resulting ordered sequence
    of [Extension]"; the base class has no post-load validation. *)
Definition ExtensionManager__init_plugins (self : Manager)
    (extensions : list Extension) : M Manager :=
  ret (set_extensions self extensions).

(** Modelled from the spec: [ExtensionManager.names] of
    [stevedore/extension.py]: "the ordered sequence of loaded extensions'
    [name] values". *)
Definition ExtensionManager_names (self : Manager) : list string :=
  map name (extensions self).

(** A callback given to [map]: what [func(ext, *args, **kwds)] does. *)
Definition callback := Extension -> args -> kwds -> result value.

Fixpoint map_loop (self : Manager) (func : callback) (a : args) (k : kwds)
    (exts : list Extension) (response : list value) : M (list value) :=
  match exts with
  | [] => ret response
  | e :: exts' =>
      r <- try_except
             (emit (Callback (name e)) ;;;
              v <- lift (func e a k) ;;
              ret (Some v))
             (fun err =>
                if propagate_map_exceptions self then raise err
                else emit (LogError (name e) err) ;;; ret None) ;;
      map_loop self func a k exts'
        (match r with
         | Some v => (response ++ [v])%list
         | None => response
         end)
  end.

(** Modelled from the spec: [ExtensionManager.map] of
    [stevedore/extension.py]: "invokes [func(extension, *args, **kwds)] once
    per loaded extension, in load order, and collects results into an
    ordered sequence (skipping extensions for which [func] raised, unless
    [propagate_map_exceptions] is true, in which case the first raise aborts
    the whole [map] call and propagates)". *)
Definition ExtensionManager_map (self : Manager) (func : callback)
    (a : args) (k : kwds) : M (list value) :=
  map_loop self func a k (extensions self) [].

(** Modelled from the spec: [ExtensionManager.make_test_instance] of
    [stevedore/extension.py]: "given a pre-built list of [Extension] and a
    [namespace] label, produces a manager whose [extensions] is exactly
    that list -- discovery and load-decision/instantiation are entirely
    bypassed". *)
Definition ExtensionManager_make_test_instance (c : class)
    (extensions : list Extension) (namespace : string)
    (propagate_map_exceptions : bool) : Manager :=
  {| cls := c; namespace := namespace; _names := None;
     extensions := extensions;
     propagate_map_exceptions := propagate_map_exceptions |}.

(** *** DriverManager: the overridden hooks *)

(** [DriverManager._load_plugins] (driver.py, lines 60-72).  The handler
    formats its message from [names[0]], [self.namespace] and [err], in
    that order. *)
Definition DriverManager__load_plugins (self : Manager)
    (invoke_on_load : bool) (invoke_args : args) (invoke_kwds : kwds)
    (names : option (list string)) : M (list Extension) :=
  try_except_Exception
    (ExtensionManager__load_plugins self invoke_on_load invoke_args
       invoke_kwds names false)
    (fun err =>
       n <- lift (subscript0 names) ;;
       raise (RuntimeError
                ("Unable to load driver " ++ n ++ " from " ++
                 namespace self ++ ": " ++ exc_msg err))).

(** [DriverManager._init_plugins] (driver.py, lines 74-86). *)
Definition DriverManager__init_plugins (self : Manager)
    (loaded : list Extension) : M Manager :=
  self <- ExtensionManager__init_plugins self loaded ;;
  (match extensions self with
   | [] =>
       names <- lift (get__names self) ;;
       name <- lift (subscript0 (Some names)) ;;
       raise (RuntimeError
                ("No " ++ repr (namespace self) ++
                 " driver found, looking for " ++ repr name))
   | _ :: _ => ret tt
   end) ;;;
  (if (1 <? length (extensions self))%nat
   then
     let discovered_drivers :=
       join "," (map entry_point_target (extensions self)) in
     raise (RuntimeError
              ("Multiple " ++ repr (namespace self) ++
               " drivers found: " ++ discovered_drivers))
   else ret tt) ;;;
  ret self.

(** *** Construction *)

(** [self._load_plugins(invoke_on_load, invoke_args, invoke_kwds)] as the
    base constructor calls it: three arguments, so that [names] and
    [catch_exception] take the defaults of the method found on the class
    of [self]. *)
Definition self__load_plugins (self : Manager) (invoke_on_load : bool)
    (invoke_args : args) (invoke_kwds : kwds) : M (list Extension) :=
  match cls self with
  | ExtensionManager | NamedExtensionManager =>
      ExtensionManager__load_plugins self invoke_on_load invoke_args
        invoke_kwds None true
  | DriverManager =>
      DriverManager__load_plugins self invoke_on_load invoke_args
        invoke_kwds None
  end.

(** [self._init_plugins(extensions)] *)
Definition self__init_plugins (self : Manager) (loaded : list Extension)
  : M Manager :=
  match cls self with
  | ExtensionManager | NamedExtensionManager =>
      ExtensionManager__init_plugins self loaded
  | DriverManager => DriverManager__init_plugins self loaded
  end.

(** Modelled from the spec: [ExtensionManager.__init__] of
    [stevedore/extension.py]: "given [namespace], [invoke_on_load],
    [invoke_args], [invoke_kwds]: queries the discovery collaborator [...]
    and stores the resulting ordered sequence"; "manager instantiates
    accepted descriptors [...] -> manager applies post-load validation";
    [propagate_map_exceptions] "defaults to false". *)
Definition ExtensionManager___init__ (self : Manager) (namespace : string)
    (invoke_on_load : bool) (invoke_args : args) (invoke_kwds : kwds)
  : M Manager :=
  let self :=
    set_propagate_map_exceptions (set_namespace self namespace) false in
  loaded <- self__load_plugins self invoke_on_load invoke_args invoke_kwds ;;
  self__init_plugins self loaded.

(** [NamedExtensionManager.__init__] (named.py, lines 30-42). *)
Definition NamedExtensionManager___init__ (self : Manager)
    (namespace : string) (names : list string) (invoke_on_load : bool)
    (invoke_args : args) (invoke_kwds : kwds) (name_order : bool)
  : M Manager :=
  let self := set__names self names in
  self <- ExtensionManager___init__ self namespace invoke_on_load
            invoke_args invoke_kwds ;;
  if name_order
  then
    sorted <- lift (list_sort (fun x => index_key names (name x))
                      (extensions self)) ;;
    ret (set_extensions self sorted)
  else ret self.

(** [DriverManager.__init__] (driver.py, lines 24-32); [name_order] takes
    its default, [False]. *)
Definition DriverManager___init__ (self : Manager) (namespace : string)
    (name : string) (invoke_on_load : bool) (invoke_args : args)
    (invoke_kwds : kwds) : M Manager :=
  NamedExtensionManager___init__ self namespace [name] invoke_on_load
    invoke_args invoke_kwds false.

(** [NamedExtensionManager(namespace, names, ...)] *)
Definition NamedExtensionManager_new (namespace : string)
    (names : list string) (invoke_on_load : bool) (invoke_args : args)
    (invoke_kwds : kwds) (name_order : bool) : M Manager :=
  NamedExtensionManager___init__ (new NamedExtensionManager) namespace names
    invoke_on_load invoke_args invoke_kwds name_order.

(** [DriverManager(namespace, name, ...)] *)
Definition DriverManager_new (namespace : string) (name : string)
    (invoke_on_load : bool) (invoke_args : args) (invoke_kwds : kwds)
  : M Manager :=
  DriverManager___init__ (new DriverManager) namespace name invoke_on_load
    invoke_args invoke_kwds.

(** [DriverManager.make_test_instance] (driver.py, lines 34-58). *)
Definition DriverManager_make_test_instance (extension : Extension)
    (namespace : string) (propagate_map_exceptions : bool) : Manager :=
  ExtensionManager_make_test_instance DriverManager [extension] namespace
    propagate_map_exceptions.

(** *** Using a driver *)

(** [DriverManager.__call__] (driver.py, lines 88-108); a function that
    falls off its end returns [None]. *)
Definition DriverManager___call__ (self : Manager) (func : callback)
    (a : args) (k : kwds) : M value :=
  results <- ExtensionManager_map self func a k ;;
  match results with
  | r :: _ => ret r
  | [] => ret VNone
  end.

(** [DriverManager.driver] (driver.py, lines 110-115). *)
Definition DriverManager_driver (self : Manager) : result value :=
  match extensions self with
  | [] => Raise (IndexError "list index out of range")
  | ext :: _ => Ok (if truthy (obj ext) then obj ext else plugin ext)
  end.

End Managers.

(** The cardinality validation of [DriverManager._init_plugins], taken on
    its own: what the claim about the refinement calls "DriverManager's
    additional post-load cardinality validation". *)
Definition cardinality_validation (self : Manager) : M Manager :=
  DriverManager__init_plugins self (extensions self).

(** A manager seen as a driver manager. *)
Definition as_DriverManager (self : Manager) : Manager :=
  {| cls := DriverManager; namespace := namespace self;
     _names := _names self; extensions := extensions self;
     propagate_map_exceptions := propagate_map_exceptions self |}.

(** Following the spec's words: "constructing
    [NamedExtensionManager(namespace, names=[name], ...)] with the same
    options, followed by DriverManager's additional post-load cardinality
    validation". *)
Definition Named_then_validation
    (iter_entry_points : string -> list EntryPoint) (namespace : string)
    (name : string) (invoke_on_load : bool) (invoke_args : args)
    (invoke_kwds : kwds) : M Manager :=
  m <- NamedExtensionManager_new iter_entry_points namespace [name]
         invoke_on_load invoke_args invoke_kwds false ;;
  cardinality_validation (as_DriverManager m).

(** ** Examples of entry points *)

Definition ep_class (n target : string) : EntryPoint :=
  {| ep_name := n; ep_target := target;
     ep_load := Ok (VClass target);
     ep_call := fun _ _ => Ok (VInstance target true) |}.

(** An entry point whose module cannot be imported. *)
Definition ep_broken (n target : string) : EntryPoint :=
  {| ep_name := n; ep_target := target;
     ep_load := Raise (Exn "ImportError" ("No module named " ++ target));
     ep_call := fun _ _ => Ok VNone |}.

(** An entry point whose class makes empty containers: instances define
    [__len__] and start with length zero. *)
Definition ep_empty_container (n target : string) : EntryPoint :=
  {| ep_name := n; ep_target := target;
     ep_load := Ok (VClass target);
     ep_call := fun _ _ => Ok (VInstance target false) |}.

Definition registry (eps : list EntryPoint) (ns : string) (namespace : string)
  : list EntryPoint :=
  if String.eqb namespace ns then eps else [].

(** ** What one entry point contributes to a load *)

(** The outcome of resolving [ep] and, when asked, calling the plugin. *)
Definition load_outcome (ep : EntryPoint) (invoke_on_load : bool)
    (a : args) (k : kwds) : result Extension :=
  match ep_load ep with
  | Raise e => Raise e
  | Ok p =>
      if invoke_on_load
      then match ep_call ep a k with
           | Raise e => Raise e
           | Ok o => Ok {| name := ep_name ep;
                           entry_point_target := ep_target ep;
                           plugin := p; obj := o |}
           end
      else Ok {| name := ep_name ep; entry_point_target := ep_target ep;
                 plugin := p; obj := VNone |}
  end.

Definition loads_ok (ep : EntryPoint) (invoke_on_load : bool)
    (a : args) (k : kwds) : bool :=
  match load_outcome ep invoke_on_load a k with
  | Ok _ => true
  | Raise _ => false
  end.

(** The effects of resolving [ep] and, when asked, calling the plugin. *)
Definition load_events (ep : EntryPoint) (invoke_on_load : bool) : trace :=
  Resolve (ep_name ep) (ep_target ep) ::
  match ep_load ep with
  | Ok _ => if invoke_on_load then [Invoke (ep_name ep) (ep_target ep)] else []
  | Raise _ => []
  end.

(** The extensions a name-filtered load with failure isolation keeps. *)
Fixpoint loaded (N : list string) (invoke_on_load : bool) (a : args)
    (k : kwds) (eps : list EntryPoint) : list Extension :=
  match eps with
  | [] => []
  | ep :: eps' =>
      (if py_in (ep_name ep) N
       then match load_outcome ep invoke_on_load a k with
            | Ok e => [e]
            | Raise _ => []
            end
       else []) ++ loaded N invoke_on_load a k eps'
  end%list.

(** The effects of that load. *)
Fixpoint loop_events (N : list string) (invoke_on_load : bool) (a : args)
    (k : kwds) (eps : list EntryPoint) : trace :=
  match eps with
  | [] => []
  | ep :: eps' =>
      (if py_in (ep_name ep) N
       then load_events ep invoke_on_load ++
            match load_outcome ep invoke_on_load a k with
            | Ok _ => []
            | Raise e => [LogError (ep_name ep) e]
            end
       else []) ++ loop_events N invoke_on_load a k eps'
  end%list.

(** The descriptor an effect concerns. *)
Definition event_name (ev : event) : string :=
  match ev with
  | Resolve n _ | Invoke n _ | LogError n _ | Callback n => n
  end.

(** The position of a name in the allow-list, where it has one. *)
Definition idx (N : list string) (n : string) : nat :=
  match list_index n N with
  | Some i => i
  | None => 0
  end.

(** The sort key of [NamedExtensionManager.__init__], where it is defined. *)
Definition name_key (N : list string) (x : Extension) : nat :=
  idx N (name x).

(** The order on decorated elements. *)
Definition key_le {A : Type} (p q : nat * A) : Prop := fst p <= fst q.

(** The list [list_sort] gives when every name is in the allow-list. *)
Definition sorted_by_names (N : list string) (l : list Extension)
  : list Extension :=
  map snd (sort_decorated (map (fun x => (name_key N x, x)) l)).

(** The object as it is when the base constructor starts loading. *)
Definition under_construction (c : class) (ns : string) (N : list string)
  : Manager :=
  set_propagate_map_exceptions (set_namespace (set__names (new c) N) ns)
    false.

(** The object a successful construction returns. *)
Definition built (c : class) (ns : string) (N : list string)
    (exts : list Extension) : Manager :=
  {| cls := c; namespace := ns; _names := Some N; extensions := exts;
     propagate_map_exceptions := false |}.

(** A name of the allow-list matches when some discovered entry point
    bears it and loads. *)
Definition has_match (eps : list EntryPoint) (invoke_on_load : bool)
    (a : args) (k : kwds) (n : string) : bool :=
  existsb (fun ep => String.eqb (ep_name ep) n &&
                     loads_ok ep invoke_on_load a k) eps.

(** ** Two statements to be compared with the code *)

(** The claim about [driver] as it was stated: whatever the call of the
    plugin returned at load time is what [driver] returns. *)
Definition driver_returns_obj_whatever_it_is : Prop :=
  forall iter ns n a k t m t' e,
    DriverManager_new iter ns n true a k t = (Ok m, t') ->
    extensions m = [e] ->
    DriverManager_driver m = Ok (obj e).

(** The refinement claim as it was stated: a [DriverManager] is built
    exactly as a [NamedExtensionManager] on [[name]], then validated. *)
Definition Driver_is_Named_then_validation : Prop :=
  forall iter ns n iol a k t,
    DriverManager_new iter ns n iol a k t =
    Named_then_validation iter ns n iol a k t.

(** * Properties *)

(** ** Strings and lists *)

Lemma py_in_In x l : py_in x l = true <-> In x l.
Proof.
  unfold py_in; rewrite existsb_exists; split.
  - intros (y & Hy & E); apply String.eqb_eq in E; subst; assumption.
  - intros H; exists x; split; [assumption | apply String.eqb_refl].
Qed.

Lemma list_index_Some x l i :
  list_index x l = Some i -> nth_error l i = Some x.
Proof.
  revert i; induction l as [|y l IH]; simpl; intros i; [discriminate|].
  destruct (String.eqb_spec y x) as [->|_].
  - intros [= <-]; reflexivity.
  - destruct (list_index x l) as [j|]; [|discriminate].
    intros [= <-]; simpl; apply IH; reflexivity.
Qed.

Lemma list_index_In x l : In x l -> exists i, list_index x l = Some i.
Proof.
  induction l as [|y l IH]; simpl; [tauto|].
  intros H; destruct (String.eqb_spec y x) as [->|Hne]; [eexists; reflexivity|].
  destruct H as [->|H]; [congruence|].
  destruct (IH H) as (i & ->); eexists; reflexivity.
Qed.

(** ** One entry point *)

Lemma base_load_one_run ep iol a k t :
  ExtensionManager__load_one_plugin ep iol a k t =
  (match load_outcome ep iol a k with
   | Ok e => Ok (Some e)
   | Raise x => Raise x
   end, (t ++ load_events ep iol)%list).
Proof.
  unfold ExtensionManager__load_one_plugin, load_outcome, load_events,
    bind, emit, lift, ret.
  destruct (ep_load ep) as [p|x]; [|reflexivity].
  destruct iol; simpl.
  - rewrite <- app_assoc; simpl.
    destruct (ep_call ep a k); reflexivity.
  - reflexivity.
Qed.

Lemma named_load_one_run self N ep iol a k t :
  _names self = Some N -> cls self <> ExtensionManager ->
  self__load_one_plugin self ep iol a k t =
  if py_in (ep_name ep) N
  then ExtensionManager__load_one_plugin ep iol a k t
  else (Ok None, t).
Proof.
  intros HN Hc; unfold self__load_one_plugin.
  assert (E : NamedExtensionManager__load_one_plugin self ep iol a k t =
              if py_in (ep_name ep) N
              then ExtensionManager__load_one_plugin ep iol a k t
              else (Ok None, t)).
  { unfold NamedExtensionManager__load_one_plugin, get__names, bind, lift.
    rewrite HN; destruct (py_in (ep_name ep) N); reflexivity. }
  destruct (cls self); [congruence | exact E | exact E].
Qed.

(** ** The load loop *)

Lemma load_loop_catch self N iol a k eps : forall acc t,
  _names self = Some N -> cls self <> ExtensionManager ->
  load_loop self iol a k true eps acc t =
  (Ok (acc ++ loaded N iol a k eps), t ++ loop_events N iol a k eps)%list.
Proof.
  induction eps as [|ep eps IH]; intros acc t HN Hc; simpl.
  - rewrite !app_nil_r; reflexivity.
  - unfold bind, try_except.
    rewrite (named_load_one_run self N) by assumption.
    destruct (py_in (ep_name ep) N).
    + rewrite base_load_one_run.
      destruct (load_outcome ep iol a k) as [e|x]; simpl.
      * rewrite IH by assumption.
        rewrite ?app_nil_r, <- ?app_assoc; reflexivity.
      * unfold emit; simpl; rewrite IH by assumption.
        rewrite <- ?app_assoc; reflexivity.
    + simpl; apply IH; assumption.
Qed.

Lemma load_loop_nocatch_ok self N iol a k eps : forall acc t,
  _names self = Some N -> cls self <> ExtensionManager ->
  Forall (fun ep => In (ep_name ep) N -> loads_ok ep iol a k = true) eps ->
  load_loop self iol a k false eps acc t =
  load_loop self iol a k true eps acc t.
Proof.
  induction eps as [|ep eps IH]; intros acc t HN Hc HF; simpl; [reflexivity|].
  inversion HF as [|? ? Hep HF']; subst.
  unfold bind, try_except.
  rewrite (named_load_one_run self N) by assumption.
  destruct (py_in (ep_name ep) N) eqn:Ein.
  - rewrite base_load_one_run.
    apply py_in_In in Ein; specialize (Hep Ein); unfold loads_ok in Hep.
    destruct (load_outcome ep iol a k); [|discriminate].
    apply IH; assumption.
  - apply IH; assumption.
Qed.

Lemma load_loop_nocatch_fail self N iol a k eps : forall acc t,
  _names self = Some N -> cls self <> ExtensionManager ->
  Exists (fun ep => In (ep_name ep) N /\ loads_ok ep iol a k = false) eps ->
  exists e t', load_loop self iol a k false eps acc t = (Raise e, t').
Proof.
  induction eps as [|ep eps IH]; intros acc t HN Hc HE; simpl.
  - inversion HE.
  - unfold bind, try_except.
    rewrite (named_load_one_run self N) by assumption.
    destruct (py_in (ep_name ep) N) eqn:Ein.
    + rewrite base_load_one_run.
      destruct (load_outcome ep iol a k) as [x|e] eqn:Eo.
      * apply IH; try assumption.
        inversion HE as [? ? [_ Hbad]|? ? HE']; subst; [|assumption].
        unfold loads_ok in Hbad; rewrite Eo in Hbad; discriminate.
      * unfold raise; eauto.
    + apply IH; try assumption.
      inversion HE as [? ? [Hin _]|? ? HE']; subst; [|assumption].
      apply py_in_In in Hin; congruence.
Qed.

(** ** The stable sort *)

Section SortFacts.
Context {A : Type}.

Lemma insert_by_key_perm k (x : A) l :
  Permutation (insert_by_key k x l) ((k, x) :: l).
Proof.
  induction l as [|[k' y] l IH]; simpl; [reflexivity|].
  destruct (k' <? k)%nat; [|reflexivity].
  rewrite IH; apply perm_swap.
Qed.

Lemma sort_decorated_perm (l : list (nat * A)) :
  Permutation (sort_decorated l) l.
Proof.
  induction l as [|[k x] l IH]; simpl; [reflexivity|].
  rewrite insert_by_key_perm; constructor; assumption.
Qed.

Lemma insert_by_key_sorted k (x : A) l :
  StronglySorted key_le l -> StronglySorted key_le (insert_by_key k x l).
Proof.
  induction l as [|[k' y] l IH]; intros H; simpl.
  - constructor; constructor.
  - inversion H as [|? ? Hs Hf]; subst.
    destruct (Nat.ltb_spec k' k) as [Hlt|Hge].
    + constructor; [apply IH; assumption|].
      apply Forall_forall; intros p Hp.
      apply (Permutation_in _ (insert_by_key_perm k x l)) in Hp.
      destruct Hp as [<-|Hp]; [unfold key_le; simpl; lia|].
      rewrite Forall_forall in Hf; apply Hf; assumption.
    + constructor; [assumption|].
      constructor; [unfold key_le; simpl; lia|].
      apply Forall_forall; intros p Hp.
      rewrite Forall_forall in Hf; specialize (Hf p Hp).
      unfold key_le in *; simpl in *; lia.
Qed.

Lemma sort_decorated_sorted (l : list (nat * A)) :
  StronglySorted key_le (sort_decorated l).
Proof.
  induction l as [|[k x] l IH]; simpl; [constructor|].
  apply insert_by_key_sorted; assumption.
Qed.

Lemma sort_decorated_keys_sorted (l : list (nat * A)) :
  StronglySorted le (map fst (sort_decorated l)).
Proof.
  generalize (sort_decorated_sorted l).
  induction 1 as [|p s Hs IH Hf]; simpl; constructor; [assumption|].
  apply Forall_map; exact Hf.
Qed.

(** A list of elements whose keys all exist is decorated as expected. *)
Lemma decorate_ok (key : A -> result nat) (f : A -> nat) (l : list A) :
  Forall (fun x => key x = Ok (f x)) l ->
  decorate key l = Ok (map (fun x => (f x, x)) l).
Proof.
  induction 1 as [|x l Hx _ IH]; simpl; [reflexivity|].
  rewrite Hx, IH; reflexivity.
Qed.

End SortFacts.

(** Sorted lists of numbers with the same elements are equal. *)
Lemma sorted_perm_eq (l1 : list nat) : forall l2,
  StronglySorted le l1 -> StronglySorted le l2 -> Permutation l1 l2 ->
  l1 = l2.
Proof.
  induction l1 as [|a l1 IH]; intros l2 H1 H2 HP.
  - apply Permutation_nil in HP; congruence.
  - destruct l2 as [|b l2].
    + apply Permutation_sym, Permutation_nil in HP; discriminate.
    + inversion H1 as [|? ? Hs1 Hf1]; inversion H2 as [|? ? Hs2 Hf2]; subst.
      assert (a = b).
      { assert (Hb : In b (a :: l1))
          by (apply (Permutation_in _ (Permutation_sym HP)); left; reflexivity).
        assert (Ha : In a (b :: l2))
          by (apply (Permutation_in _ HP); left; reflexivity).
        rewrite Forall_forall in Hf1, Hf2.
        destruct Hb as [Hb|Hb]; [congruence|].
        destruct Ha as [Ha|Ha]; [congruence|].
        specialize (Hf1 _ Hb); specialize (Hf2 _ Ha); lia. }
      subst b; f_equal.
      apply IH; try assumption.
      eapply Permutation_cons_inv; eassumption.
Qed.

Lemma nth_idx N n : In n N -> nth (idx N n) N EmptyString = n.
Proof.
  intros H; unfold idx.
  destruct (list_index_In _ _ H) as (i & E); rewrite E.
  apply nth_error_nth, list_index_Some; assumption.
Qed.

(** Names of the allow-list are determined by their positions. *)
Lemma names_of_idx N (l : list string) :
  Forall (fun n => In n N) l ->
  l = map (fun i => nth i N EmptyString) (map (idx N) l).
Proof.
  induction 1 as [|n l Hn _ IH]; simpl; [reflexivity|].
  rewrite nth_idx by assumption; congruence.
Qed.

(** Lists of allowed names in allow-list order with the same elements are
    equal. *)
Lemma names_sorted_perm_eq N (l1 l2 : list string) :
  Forall (fun n => In n N) l1 ->
  StronglySorted le (map (idx N) l1) ->
  StronglySorted le (map (idx N) l2) ->
  Permutation l1 l2 -> l1 = l2.
Proof.
  intros H1 S1 S2 HP.
  assert (H2 : Forall (fun n => In n N) l2)
    by (eapply Permutation_Forall; eassumption).
  rewrite (names_of_idx N l1 H1), (names_of_idx N l2 H2).
  f_equal; apply sorted_perm_eq; try assumption.
  apply Permutation_map; assumption.
Qed.

(** Without repeated names, the allow-list itself is in allow-list order,
    and so is every selection from it. *)
Lemma idx_cons_other y N n : y <> n -> In n N -> idx (y :: N) n = S (idx N n).
Proof.
  intros Hne Hin; unfold idx; simpl.
  destruct (String.eqb_spec y n); [congruence|].
  destruct (list_index_In _ _ Hin) as (i & ->); reflexivity.
Qed.

Lemma filter_idx_sorted (p : string -> bool) N :
  NoDup N -> StronglySorted le (map (idx N) (filter p N)).
Proof.
  induction 1 as [|y N Hy HN IH]; simpl; [constructor|].
  assert (Htail : forall l, Forall (fun n => In n N) l ->
            map (idx (y :: N)) l = map S (map (idx N) l)).
  { induction 1 as [|n l Hn _ IHl]; simpl; [reflexivity|].
    rewrite idx_cons_other, IHl; [reflexivity| |assumption].
    intros ->; contradiction. }
  assert (Hsub : Forall (fun n => In n N) (filter p N))
    by (apply Forall_forall; intros n Hn; apply filter_In in Hn; tauto).
  assert (Hs : StronglySorted le (map (idx (y :: N)) (filter p N))).
  { rewrite (Htail _ Hsub).
    clear - IH; induction IH as [|i s Hs IHs Hf]; simpl; constructor;
      [assumption|].
    apply Forall_map; eapply Forall_impl; [|exact Hf].
    simpl; intros; lia. }
  destruct (p y); [|exact Hs].
  simpl; constructor; [exact Hs|].
  unfold idx at 1; simpl; rewrite String.eqb_refl.
  apply Forall_forall; intros; lia.
Qed.

(** ** What a load keeps *)

Lemma loaded_flat_map N iol a k eps :
  loaded N iol a k eps =
  flat_map (fun ep => if py_in (ep_name ep) N
                      then match load_outcome ep iol a k with
                           | Ok e => [e]
                           | Raise _ => []
                           end
                      else []) eps.
Proof. induction eps as [|ep eps IH]; simpl; congruence. Qed.

Lemma load_outcome_name ep iol a k e :
  load_outcome ep iol a k = Ok e -> name e = ep_name ep.
Proof.
  unfold load_outcome; destruct (ep_load ep); [|discriminate].
  destruct iol; [destruct (ep_call ep a k); [|discriminate]|];
    intros [= <-]; reflexivity.
Qed.

Lemma in_loaded N iol a k eps e :
  In e (loaded N iol a k eps) <->
  exists ep, In ep eps /\ In (ep_name ep) N /\ load_outcome ep iol a k = Ok e.
Proof.
  rewrite loaded_flat_map, in_flat_map; split.
  - intros (ep & Hep & He); exists ep; split; [assumption|].
    destruct (py_in (ep_name ep) N) eqn:Ein; [|contradiction].
    apply py_in_In in Ein; split; [assumption|].
    destruct (load_outcome ep iol a k); simpl in He; [|contradiction].
    destruct He as [->|[]]; reflexivity.
  - intros (ep & Hep & Hin & Ho); exists ep; split; [assumption|].
    apply py_in_In in Hin; rewrite Hin, Ho; left; reflexivity.
Qed.

Lemma loaded_names_allowed N iol a k eps :
  Forall (fun x => In (name x) N) (loaded N iol a k eps).
Proof.
  apply Forall_forall; intros e He.
  apply in_loaded in He; destruct He as (ep & _ & Hin & Ho).
  rewrite (load_outcome_name _ _ _ _ _ Ho); assumption.
Qed.

Lemma loaded_names_discovered N iol a k eps :
  Forall (fun x => In (name x) (map ep_name eps)) (loaded N iol a k eps).
Proof.
  apply Forall_forall; intros e He.
  apply in_loaded in He; destruct He as (ep & Hep & _ & Ho).
  rewrite (load_outcome_name _ _ _ _ _ Ho); apply in_map; assumption.
Qed.

Lemma loop_events_allowed N iol a k eps :
  Forall (fun ev => In (event_name ev) N) (loop_events N iol a k eps).
Proof.
  induction eps as [|ep eps IH]; simpl; [constructor|].
  apply Forall_app; split; [|assumption].
  destruct (py_in (ep_name ep) N) eqn:Ein; [|constructor].
  apply py_in_In in Ein.
  simpl; constructor; [assumption|].
  apply Forall_app; split.
  - destruct (ep_load ep); [destruct iol|]; repeat constructor; assumption.
  - destruct (load_outcome ep iol a k); repeat constructor; assumption.
Qed.

Lemma loaded_perm N iol a k eps eps' :
  Permutation eps eps' ->
  Permutation (loaded N iol a k eps) (loaded N iol a k eps').
Proof.
  intros HP; rewrite !loaded_flat_map.
  apply Permutation_flat_map; assumption.
Qed.

(** ** Sorting the loaded extensions by name *)

Lemma index_key_ok N n : In n N -> index_key N n = Ok (idx N n).
Proof.
  intros H; unfold index_key, idx.
  destruct (list_index_In _ _ H) as (i & ->); reflexivity.
Qed.

Lemma list_sort_names N (l : list Extension) :
  Forall (fun x => In (name x) N) l ->
  list_sort (fun x => index_key N (name x)) l = Ok (sorted_by_names N l).
Proof.
  intros H; unfold list_sort, sorted_by_names.
  rewrite (decorate_ok _ (name_key N)); [reflexivity|].
  eapply Forall_impl; [|exact H].
  intros x Hx; apply index_key_ok; assumption.
Qed.

Lemma sorted_by_names_perm N l : Permutation (sorted_by_names N l) l.
Proof.
  unfold sorted_by_names.
  rewrite sort_decorated_perm, map_map; simpl; rewrite map_id; reflexivity.
Qed.

Lemma sorted_by_names_keys N l :
  map (name_key N) (sorted_by_names N l) =
  map fst (sort_decorated (map (fun x => (name_key N x, x)) l)).
Proof.
  unfold sorted_by_names; rewrite map_map.
  apply map_ext_in; intros p Hp.
  apply (Permutation_in _ (sort_decorated_perm _)) in Hp.
  apply in_map_iff in Hp; destruct Hp as (x & <- & _); reflexivity.
Qed.

Lemma sorted_by_names_sorted N l :
  StronglySorted le (map (idx N) (map name (sorted_by_names N l))).
Proof.
  rewrite map_map; change (fun x => idx N (name x)) with (name_key N).
  rewrite sorted_by_names_keys; apply sort_decorated_keys_sorted.
Qed.

(** ** Construction, step by step *)

Lemma under_construction_names c ns N :
  _names (under_construction c ns N) = Some N.
Proof. reflexivity. Qed.

Lemma Named_new_run iter ns N iol a k name_order t :
  NamedExtensionManager_new iter ns N iol a k name_order t =
  (Ok (built NamedExtensionManager ns N
         (if name_order
          then sorted_by_names N (loaded N iol a k (iter ns))
          else loaded N iol a k (iter ns))),
   (t ++ loop_events N iol a k (iter ns))%list).
Proof.
  unfold NamedExtensionManager_new, NamedExtensionManager___init__,
    ExtensionManager___init__.
  set (self := set_propagate_map_exceptions _ _).
  assert (Hload : self__load_plugins iter self iol a k t =
                  (Ok (loaded N iol a k (iter ns)),
                   (t ++ loop_events N iol a k (iter ns))%list)).
  { unfold self__load_plugins, ExtensionManager__load_plugins; simpl.
    rewrite (load_loop_catch self N); [reflexivity| reflexivity |].
    simpl; discriminate. }
  unfold bind at 1. unfold bind at 1. rewrite Hload.
  unfold self__init_plugins; simpl.
  destruct name_order; [|reflexivity].
  unfold bind, lift, ret; simpl.
  rewrite list_sort_names by apply loaded_names_allowed.
  reflexivity.
Qed.

(** The loading step of a [DriverManager] under construction. *)
Lemma Driver_new_unfold iter ns n iol a k t :
  DriverManager_new iter ns n iol a k t =
  match self__load_plugins iter (under_construction DriverManager ns [n])
          iol a k t with
  | (Ok l, t') =>
      DriverManager__init_plugins (under_construction DriverManager ns [n])
        l t'
  | (Raise e, t') => (Raise e, t')
  end.
Proof.
  unfold DriverManager_new, DriverManager___init__,
    NamedExtensionManager___init__, ExtensionManager___init__.
  fold (under_construction DriverManager ns [n]).
  unfold bind at 1. unfold bind at 1.
  destruct (self__load_plugins _ _ _ _ _ _) as [[l|e] t']; [|reflexivity].
  change (self__init_plugins (under_construction DriverManager ns [n]) l t')
    with (DriverManager__init_plugins
            (under_construction DriverManager ns [n]) l t').
  destruct (DriverManager__init_plugins _ _ _) as [[m|e] t'']; reflexivity.
Qed.

Lemma Driver_init_plugins_run self l t n ns :
  _names self = Some [n] -> namespace self = ns ->
  DriverManager__init_plugins self l t =
  match l with
  | [] => (Raise (RuntimeError ("No " ++ repr ns ++
                                " driver found, looking for " ++ repr n)), t)
  | [e] => (Ok (set_extensions self [e]), t)
  | _ :: _ :: _ =>
      (Raise (RuntimeError ("Multiple " ++ repr ns ++ " drivers found: " ++
                            join "," (map entry_point_target l))), t)
  end.
Proof.
  intros HN Hns; unfold DriverManager__init_plugins,
    ExtensionManager__init_plugins, bind, ret, lift, raise, get__names.
  simpl; rewrite HN, Hns.
  destruct l as [|e [|e' l]]; reflexivity.
Qed.

(** Loading for a driver: every candidate loads, or the load raises. *)
Lemma Driver_loading_ok iter ns n iol a k t :
  Forall (fun ep => In (ep_name ep) [n] -> loads_ok ep iol a k = true)
    (iter ns) ->
  self__load_plugins iter (under_construction DriverManager ns [n]) iol a k t
  = (Ok (loaded [n] iol a k (iter ns)),
     (t ++ loop_events [n] iol a k (iter ns))%list).
Proof.
  intros H; unfold self__load_plugins, DriverManager__load_plugins,
    ExtensionManager__load_plugins, try_except_Exception; simpl.
  rewrite (load_loop_nocatch_ok _ [n]); try assumption; try reflexivity;
    [|simpl; discriminate].
  rewrite (load_loop_catch _ [n]); [reflexivity|reflexivity|].
  simpl; discriminate.
Qed.

Lemma Driver_loading_fail iter ns n iol a k t :
  Exists (fun ep => In (ep_name ep) [n] /\ loads_ok ep iol a k = false)
    (iter ns) ->
  exists e t',
    self__load_plugins iter (under_construction DriverManager ns [n]) iol a
      k t
    = (Raise e, t').
Proof.
  intros H; unfold self__load_plugins, DriverManager__load_plugins,
    ExtensionManager__load_plugins, try_except_Exception; simpl.
  destruct (load_loop_nocatch_fail
              (under_construction DriverManager ns [n]) [n] iol a k
              (iter ns) [] t) as (e & t' & E);
    [reflexivity | simpl; discriminate | assumption |].
  simpl in E; rewrite E.
  destruct (is_Exception e); do 2 eexists; reflexivity.
Qed.

(** Whatever the load does, its result list is what the isolating load
    keeps, when it returns one. *)
Lemma load_loop_nocatch_result self N iol a k eps : forall acc t l t',
  _names self = Some N -> cls self <> ExtensionManager ->
  load_loop self iol a k false eps acc t = (Ok l, t') ->
  l = (acc ++ loaded N iol a k eps)%list /\
  Forall (fun ep => In (ep_name ep) N -> loads_ok ep iol a k = true) eps.
Proof.
  induction eps as [|ep eps IH]; intros acc t l t' HN Hc; simpl.
  - unfold ret; intros [= <- <-]; rewrite app_nil_r; split; constructor.
  - unfold bind, try_except.
    rewrite (named_load_one_run self N) by assumption.
    destruct (py_in (ep_name ep) N) eqn:Ein.
    + rewrite base_load_one_run.
      destruct (load_outcome ep iol a k) as [x|e] eqn:Eo; [|discriminate].
      intros E; destruct (IH _ _ _ _ HN Hc E) as (-> & HF).
      rewrite <- app_assoc; split; [reflexivity|].
      constructor; [|assumption].
      intros _; unfold loads_ok; rewrite Eo; reflexivity.
    + intros E; destruct (IH _ _ _ _ HN Hc E) as (-> & HF).
      split; [reflexivity|].
      constructor; [|assumption].
      intros Hin; apply py_in_In in Hin; congruence.
Qed.

Lemma Driver_loading_result iter ns n iol a k t l t' :
  self__load_plugins iter (under_construction DriverManager ns [n]) iol a k t
  = (Ok l, t') ->
  l = loaded [n] iol a k (iter ns) /\
  t' = (t ++ loop_events [n] iol a k (iter ns))%list /\
  Forall (fun ep => In (ep_name ep) [n] -> loads_ok ep iol a k = true)
    (iter ns).
Proof.
  intros E.
  assert (HF : Forall (fun ep => In (ep_name ep) [n] ->
                                 loads_ok ep iol a k = true) (iter ns)).
  { revert E; unfold self__load_plugins, DriverManager__load_plugins,
      ExtensionManager__load_plugins, try_except_Exception; simpl.
    destruct (load_loop _ _ _ _ _ _ _ _) as [[l0|e] t0] eqn:El;
      [|destruct (is_Exception e); unfold bind, lift; simpl; discriminate].
    intros _.
    eapply (load_loop_nocatch_result _ [n]) in El;
      [tauto | reflexivity | simpl; discriminate]. }
  rewrite Driver_loading_ok in E by assumption.
  inversion E; subst; auto.
Qed.

Lemma Driver_new_ok_inv iter ns n iol a k t m t' :
  DriverManager_new iter ns n iol a k t = (Ok m, t') ->
  exists e,
    loaded [n] iol a k (iter ns) = [e] /\
    m = built DriverManager ns [n] [e] /\
    t' = (t ++ loop_events [n] iol a k (iter ns))%list /\
    Forall (fun ep => In (ep_name ep) [n] -> loads_ok ep iol a k = true)
      (iter ns).
Proof.
  rewrite Driver_new_unfold.
  destruct (self__load_plugins _ _ _ _ _ _) as [[l|x] t0] eqn:El;
    [|discriminate].
  apply Driver_loading_result in El; destruct El as (-> & -> & HF).
  rewrite (Driver_init_plugins_run _ _ _ n ns) by reflexivity.
  destruct (loaded [n] iol a k (iter ns)) as [|e [|e' l]];
    try discriminate.
  intros [= <- <-]; exists e; auto.
Qed.

(** When every candidate loads, the loaded targets are the targets of all
    the entry points bearing the name, in discovery order, repeated ones
    included. *)
Lemma loaded_targets n iol a k eps :
  Forall (fun ep => In (ep_name ep) [n] -> loads_ok ep iol a k = true) eps ->
  map entry_point_target (loaded [n] iol a k eps) =
  map ep_target (filter (fun ep => String.eqb (ep_name ep) n) eps).
Proof.
  induction 1 as [|ep eps Hep _ IH]; simpl; [reflexivity|].
  rewrite orb_false_r.
  destruct (String.eqb_spec (ep_name ep) n) as [E|_]; [|exact IH].
  assert (Hok : loads_ok ep iol a k = true) by (apply Hep; left; auto).
  unfold loads_ok in Hok.
  destruct (load_outcome ep iol a k) as [e|] eqn:Eo; [|discriminate].
  simpl; f_equal; [|exact IH].
  revert Eo; unfold load_outcome.
  destruct (ep_load ep); [|discriminate].
  destruct iol; [destruct (ep_call ep a k); [|discriminate]|];
    intros [= <-]; reflexivity.
Qed.

(** ** The claims about [DriverManager] *)

Lemma loaded_no_match n iol a k eps :
  Forall (fun ep => ep_name ep <> n) eps ->
  loaded [n] iol a k eps = [] /\ loop_events [n] iol a k eps = [].
Proof.
  induction 1 as [|ep eps Hep _ (IH1 & IH2)]; simpl; [split; reflexivity|].
  rewrite orb_false_r.
  destruct (String.eqb_spec (ep_name ep) n); [contradiction|].
  simpl; split; assumption.
Qed.

(** C2: if the loading step of a [DriverManager] under construction
    completes with no extension at all, construction raises the "driver not
    found" [RuntimeError], whose message gives the namespace and the
    requested name (both formatted with [%r]); no manager is returned.  So
    it is, in particular, when no discovered entry point bears the name. *)
Theorem C2_driver_not_found iter ns n iol a k t :
  (forall t',
      self__load_plugins iter (under_construction DriverManager ns [n]) iol a
        k t = (Ok [], t') ->
      DriverManager_new iter ns n iol a k t =
      (Raise (RuntimeError ("No " ++ repr ns ++
                            " driver found, looking for " ++ repr n)), t')) /\
  (Forall (fun ep => ep_name ep <> n) (iter ns) ->
   DriverManager_new iter ns n iol a k t =
   (Raise (RuntimeError ("No " ++ repr ns ++
                         " driver found, looking for " ++ repr n)), t)).
Proof.
  assert (H1 : forall t',
      self__load_plugins iter (under_construction DriverManager ns [n]) iol a
        k t = (Ok [], t') ->
      DriverManager_new iter ns n iol a k t =
      (Raise (RuntimeError ("No " ++ repr ns ++
                            " driver found, looking for " ++ repr n)), t')).
  { intros t' H; rewrite Driver_new_unfold, H.
    apply (Driver_init_plugins_run _ [] t' n ns); reflexivity. }
  split; [exact H1|].
  intros HF; apply H1.
  destruct (loaded_no_match n iol a k _ HF) as (El & Ee).
  rewrite Driver_loading_ok, El, Ee, app_nil_r; [reflexivity|].
  eapply Forall_impl; [|exact HF].
  intros ep Hne [E|[]]; congruence.
Qed.

Lemma C2_driver_not_found_witness :
  DriverManager_new (registry [ep_class "a" "m:A"] "X") "X" "d" false [] []
    [] =
  (Raise (RuntimeError "No 'X' driver found, looking for 'd'"), []).
Proof.
  apply (proj2 (C2_driver_not_found (registry [ep_class "a" "m:A"] "X") "X"
                  "d" false [] [] [])).
  repeat constructor; discriminate.
Defined.

(** C3: if the loading step of a [DriverManager] under construction
    completes with more than one extension, construction raises the
    "multiple drivers" [RuntimeError], whose message gives the namespace and
    the [entry_point_target]s of all loaded extensions joined by commas;
    these are the targets of all the entry points bearing the name, in
    discovery order, none merged. *)
Theorem C3_ambiguous_driver iter ns n iol a k t l t' :
  self__load_plugins iter (under_construction DriverManager ns [n]) iol a k t
  = (Ok l, t') ->
  1 < length l ->
  DriverManager_new iter ns n iol a k t =
  (Raise (RuntimeError ("Multiple " ++ repr ns ++ " drivers found: " ++
                        join "," (map entry_point_target l))), t') /\
  map entry_point_target l =
  map ep_target (filter (fun ep => String.eqb (ep_name ep) n) (iter ns)).
Proof.
  intros H Hlen; split.
  - rewrite Driver_new_unfold, H.
    rewrite (Driver_init_plugins_run _ l t' n ns) by reflexivity.
    destruct l as [|e [|e' l]]; simpl in Hlen; try lia; reflexivity.
  - apply Driver_loading_result in H; destruct H as (-> & _ & HF).
    apply loaded_targets; assumption.
Qed.

Lemma C3_ambiguous_driver_witness :
  DriverManager_new
    (registry [ep_class "d" "m:A"; ep_class "d" "m:A"; ep_class "d" "n:B"]
       "X") "X" "d" false [] [] [] =
  (Raise (RuntimeError "Multiple 'X' drivers found: m:A,m:A,n:B"),
   [Resolve "d" "m:A"; Resolve "d" "m:A"; Resolve "d" "n:B"]).
Proof.
  refine (proj1 (C3_ambiguous_driver
                   (registry [ep_class "d" "m:A"; ep_class "d" "m:A";
                              ep_class "d" "n:B"] "X")
                   "X" "d" false [] [] []
                   (loaded ["d"] false [] []
                      [ep_class "d" "m:A"; ep_class "d" "m:A";
                       ep_class "d" "n:B"])
                   [Resolve "d" "m:A"; Resolve "d" "m:A"; Resolve "d" "n:B"]
                   _ _)).
  - reflexivity.
  - simpl; lia.
Defined.

(** C10: after a successful construction of a [DriverManager], by
    discovery or by [make_test_instance], [extensions] has exactly one
    element and the [driver] property returns a value (its read of
    [extensions[0]] does not raise). *)
Theorem C10_driver_access_safe :
  (forall iter ns n iol a k t m t',
      DriverManager_new iter ns n iol a k t = (Ok m, t') ->
      length (extensions m) = 1 /\ exists v, DriverManager_driver m = Ok v) /\
  (forall e ns p,
      length (extensions (DriverManager_make_test_instance e ns p)) = 1 /\
      exists v,
        DriverManager_driver (DriverManager_make_test_instance e ns p) = Ok v).
Proof.
  split.
  - intros iter ns n iol a k t m t' H.
    apply Driver_new_ok_inv in H; destruct H as (e & _ & -> & _).
    split; [reflexivity|]; eexists; reflexivity.
  - intros e ns p; split; [reflexivity|]; eexists; reflexivity.
Qed.

Lemma C10_driver_access_safe_witness :
  exists m,
    DriverManager_new (registry [ep_class "d" "m:A"] "X") "X" "d" true [] []
      [] = (Ok m, [Resolve "d" "m:A"; Invoke "d" "m:A"]) /\
    length (extensions m) = 1 /\
    exists v, DriverManager_driver m = Ok v.
Proof.
  eexists; split; [reflexivity|].
  apply (proj1 C10_driver_access_safe
           (registry [ep_class "d" "m:A"] "X") "X" "d" true [] [] [] _
           [Resolve "d" "m:A"; Invoke "d" "m:A"]).
  reflexivity.
Defined.

(** C1: the code at a failing input.  A plugin class whose instances are
    empty containers, loaded with invocation on load: construction
    succeeds, the sole extension holds the instance the call produced, and
    [driver], which tests the truth value of [obj] where it means to test
    whether there is one, returns the class and not that instance. *)
Theorem C1_falsy_instance_returns_class :
  DriverManager_new (registry [ep_empty_container "d" "m:Queue"] "X") "X" "d"
    true [] [] [] =
  (Ok (built DriverManager "X" ["d"]
         [{| name := "d"; entry_point_target := "m:Queue";
             plugin := VClass "m:Queue";
             obj := VInstance "m:Queue" false |}]),
   [Resolve "d" "m:Queue"; Invoke "d" "m:Queue"]) /\
  ep_call (ep_empty_container "d" "m:Queue") [] [] =
  Ok (VInstance "m:Queue" false) /\
  DriverManager_driver
    (built DriverManager "X" ["d"]
       [{| name := "d"; entry_point_target := "m:Queue";
           plugin := VClass "m:Queue";
           obj := VInstance "m:Queue" false |}]) =
  Ok (VClass "m:Queue") /\
  ~ driver_returns_obj_whatever_it_is.
Proof.
  repeat split.
  intros H.
  specialize (H (registry [ep_empty_container "d" "m:Queue"] "X") "X" "d"
                [] [] [] _ _ _ eq_refl eq_refl).
  vm_compute in H; discriminate.
Qed.

(** Where [driver] does return what the load produced: on a manager built
    without invocation on load it returns the plugin, and on one built with
    it, the object the call returned provided that object is truthy. *)
Lemma driver_of_constructed iter ns n iol a k t m t' :
  DriverManager_new iter ns n iol a k t = (Ok m, t') ->
  exists e ep,
    extensions m = [e] /\
    In ep (iter ns) /\ ep_name ep = n /\ ep_load ep = Ok (plugin e) /\
    (if iol then ep_call ep a k = Ok (obj e) else obj e = VNone) /\
    DriverManager_driver m =
      Ok (if truthy (obj e) then obj e else plugin e) /\
    (iol = false -> DriverManager_driver m = Ok (plugin e)) /\
    (truthy (obj e) = true -> DriverManager_driver m = Ok (obj e)).
Proof.
  intros H; apply Driver_new_ok_inv in H.
  destruct H as (e & Hl & -> & _ & _).
  assert (He : In e (loaded [n] iol a k (iter ns)))
    by (rewrite Hl; left; reflexivity).
  apply in_loaded in He; destruct He as (ep & Hep & Hn & Ho).
  exists e, ep; split; [reflexivity|]; split; [assumption|].
  split; [destruct Hn as [<-|[]]; reflexivity|].
  assert (Hp : ep_load ep = Ok (plugin e) /\
               (if iol then ep_call ep a k = Ok (obj e) else obj e = VNone)).
  { revert Ho; unfold load_outcome.
    destruct (ep_load ep); [|discriminate].
    destruct iol; [destruct (ep_call ep a k); [|discriminate]|];
      intros [= <-]; split; reflexivity. }
  destruct Hp as (Hp & Hobj).
  split; [assumption|]; split; [assumption|].
  unfold DriverManager_driver; simpl.
  split; [reflexivity|]; split.
  - intros ->; rewrite Hobj; reflexivity.
  - intros ->; reflexivity.
Qed.

(** [DriverManager._load_plugins] does wrap a load failure when it is given
    the names: the message then carries [names[0]], the namespace and the
    cause. *)
Lemma Driver_load_plugins_wraps iter self iol a k n rest t err t' :
  ExtensionManager__load_plugins iter self iol a k (Some (n :: rest)) false t
  = (Raise err, t') ->
  is_Exception err = true ->
  DriverManager__load_plugins iter self iol a k (Some (n :: rest)) t =
  (Raise (RuntimeError ("Unable to load driver " ++ n ++ " from " ++
                        namespace self ++ ": " ++ exc_msg err)), t').
Proof.
  intros H He; unfold DriverManager__load_plugins, try_except_Exception.
  rewrite H, He; reflexivity.
Qed.

(** With [names] left to its default, [None], the handler itself fails. *)
Lemma Driver_load_plugins_default_names iter self iol a k t err t' :
  ExtensionManager__load_plugins iter self iol a k None false t
  = (Raise err, t') ->
  is_Exception err = true ->
  DriverManager__load_plugins iter self iol a k None t =
  (Raise (TypeError "'NoneType' object is not subscriptable"), t').
Proof.
  intros H He; unfold DriverManager__load_plugins, try_except_Exception.
  rewrite H, He; reflexivity.
Qed.

(** C6: the code at a failing input.  [DriverManager('X', 'd')], where the
    only entry point named [d] cannot be imported: the load runs with
    [catch_exception] false, the [ImportError] reaches the handler of
    [DriverManager._load_plugins], and the handler, called without [names],
    raises a [TypeError] on [names[0]] in place of the "Unable to load
    driver" [RuntimeError]. *)
Theorem C6_load_failure_not_wrapped :
  DriverManager_new (registry [ep_broken "d" "m:A"] "X") "X" "d" false [] []
    [] =
  (Raise (TypeError "'NoneType' object is not subscriptable"),
   [Resolve "d" "m:A"]) /\
  DriverManager__load_plugins (registry [ep_broken "d" "m:A"] "X")
    (under_construction DriverManager "X" ["d"]) false [] [] (Some ["d"]) [] =
  (Raise (RuntimeError "Unable to load driver d from X: No module named m:A"),
   [Resolve "d" "m:A"]).
Proof. split; reflexivity. Qed.

(** ** Calling the driver *)

(** C7: [__call__] runs [func] through [map] and returns the first element
    of the list [map] returns, [None] when that list is empty, and raises
    what [map] raises.  For the single extension of a driver manager: the
    value of [func], or, when [func] raises, [None] after logging if
    [propagate_map_exceptions] is false, and the exception if it is true. *)
Theorem C7_call_returns_first_result self func a k t :
  DriverManager___call__ self func a k t =
  (match ExtensionManager_map self func a k t with
   | (Ok (r :: _), t') => (Ok r, t')
   | (Ok [], t') => (Ok VNone, t')
   | (Raise e, t') => (Raise e, t')
   end) /\
  (forall e, extensions self = [e] ->
     DriverManager___call__ self func a k t =
     match func e a k with
     | Ok v => (Ok v, t ++ [Callback (name e)])
     | Raise err =>
         if propagate_map_exceptions self
         then (Raise err, t ++ [Callback (name e)])
         else (Ok VNone, t ++ [Callback (name e); LogError (name e) err])
     end%list).
Proof.
  split.
  - unfold DriverManager___call__, bind.
    destruct (ExtensionManager_map self func a k t) as [[[|r l]|e] t'];
      reflexivity.
  - intros e He; unfold DriverManager___call__, ExtensionManager_map.
    rewrite He; simpl.
    unfold bind, try_except, emit, lift, ret, raise; simpl.
    destruct (func e a k) as [v|err]; [reflexivity|].
    destruct (propagate_map_exceptions self); simpl; [reflexivity|].
    rewrite <- app_assoc; reflexivity.
Qed.

Lemma C7_call_returns_first_result_witness :
  DriverManager___call__
    (DriverManager_make_test_instance
       {| name := "d"; entry_point_target := "m:A"; plugin := VClass "m:A";
          obj := VNone |} "TESTING" false)
    (fun _ _ _ => Raise (ValueError "boom")) [] [] [] =
  (Ok VNone, [Callback "d"; LogError "d" (ValueError "boom")]).
Proof.
  apply (proj2 (C7_call_returns_first_result
                  (DriverManager_make_test_instance
                     {| name := "d"; entry_point_target := "m:A";
                        plugin := VClass "m:A"; obj := VNone |}
                     "TESTING" false)
                  (fun _ _ _ => Raise (ValueError "boom")) [] [] [])
               {| name := "d"; entry_point_target := "m:A";
                  plugin := VClass "m:A"; obj := VNone |}).
  reflexivity.
Defined.

(** ** The claims about [NamedExtensionManager] *)

(** C9: every extension a [NamedExtensionManager] has loaded bears a name
    of the allow-list; the sort key [names.index(x.name)] is therefore
    defined on each of them, the reordering done under [name_order] returns
    a list, and construction with [name_order] succeeds with that list. *)
Theorem C9_loaded_names_in_allow_list iter ns N iol a k t :
  exists m t',
    NamedExtensionManager_new iter ns N iol a k false t = (Ok m, t') /\
    _names m = Some N /\
    Forall (fun x => In (name x) N) (extensions m) /\
    Forall (fun x => exists i, index_key N (name x) = Ok i) (extensions m) /\
    exists s,
      list_sort (fun x => index_key N (name x)) (extensions m) = Ok s /\
      Forall (fun x => In (name x) N) s /\
      NamedExtensionManager_new iter ns N iol a k true t =
      (Ok (set_extensions m s), t').
Proof.
  rewrite !Named_new_run; do 2 eexists; split; [reflexivity|]; simpl.
  split; [reflexivity|].
  split; [apply loaded_names_allowed|].
  split.
  - eapply Forall_impl; [|apply loaded_names_allowed].
    intros x Hx; exists (idx N (name x)); apply index_key_ok; assumption.
  - exists (sorted_by_names N (loaded N iol a k (iter ns))).
    split; [apply list_sort_names, loaded_names_allowed|].
    split; [|reflexivity].
    eapply Permutation_Forall;
      [apply Permutation_sym, sorted_by_names_perm
      |apply loaded_names_allowed].
Qed.

(** C4: [NamedExtensionManager._load_one_plugin] returns [None] and does
    nothing else for an entry point whose name is not in the allow-list;
    during construction every resolution, every call of a plugin and every
    logged failure concerns an entry point whose name is in the allow-list,
    so no entry point outside it is resolved or instantiated; and the names
    of the manager are names of the allow-list borne by discovered entry
    points. *)
Theorem C4_allow_list_checked_before_load iter ns N iol a k name_order t :
  (forall self ep t0,
      _names self = Some N -> ~ In (ep_name ep) N ->
      NamedExtensionManager__load_one_plugin self ep iol a k t0 =
      (Ok None, t0)) /\
  exists m ev,
    NamedExtensionManager_new iter ns N iol a k name_order t =
    (Ok m, (t ++ ev)%list) /\
    Forall (fun e => In (event_name e) N) ev /\
    (forall ep, ~ In (ep_name ep) N ->
                ~ In (Resolve (ep_name ep) (ep_target ep)) ev /\
                ~ In (Invoke (ep_name ep) (ep_target ep)) ev) /\
    (forall n, In n (ExtensionManager_names m) ->
               In n N /\ In n (map ep_name (iter ns))).
Proof.
  split.
  - intros self ep t0 HN Hout.
    unfold NamedExtensionManager__load_one_plugin, get__names, bind, lift.
    rewrite HN.
    destruct (py_in (ep_name ep) N) eqn:E; [|reflexivity].
    apply py_in_In in E; contradiction.
  - rewrite Named_new_run; do 2 eexists; split; [reflexivity|].
    pose proof (loop_events_allowed N iol a k (iter ns)) as Hev.
    split; [exact Hev|]; split.
    + rewrite Forall_forall in Hev.
      intros ep Hout; split; intros Hin; apply Hev in Hin; contradiction.
    + intros n Hn; unfold ExtensionManager_names in Hn; simpl in Hn.
      assert (Hn' : In n (map name (loaded N iol a k (iter ns)))).
      { destruct name_order; [|assumption].
        eapply Permutation_in; [|exact Hn].
        apply Permutation_map, sorted_by_names_perm. }
      apply in_map_iff in Hn'; destruct Hn' as (e & <- & He).
      pose proof (loaded_names_allowed N iol a k (iter ns)) as H1.
      pose proof (loaded_names_discovered N iol a k (iter ns)) as H2.
      rewrite Forall_forall in H1, H2; auto.
Qed.

Lemma C4_allow_list_checked_before_load_witness :
  NamedExtensionManager__load_one_plugin
    (under_construction NamedExtensionManager "X" ["a"])
    (ep_class "b" "m:B") true [] [] [] = (Ok None, []).
Proof.
  apply (proj1 (C4_allow_list_checked_before_load
                  (registry [ep_class "a" "m:A"; ep_class "b" "m:B"] "X")
                  "X" ["a"] true [] [] false [])).
  - reflexivity.
  - simpl; intros [H|[]]; discriminate.
Defined.

(** ** Order of the names under [name_order] *)

Lemma sorted_names_perm_invariant N (l l' : list Extension) :
  Forall (fun x => In (name x) N) l -> Permutation l l' ->
  map name (sorted_by_names N l) = map name (sorted_by_names N l').
Proof.
  intros HN HP.
  apply (names_sorted_perm_eq N).
  - apply Forall_map.
    eapply Permutation_Forall;
      [apply Permutation_sym, sorted_by_names_perm | exact HN].
  - apply sorted_by_names_sorted.
  - apply sorted_by_names_sorted.
  - apply Permutation_map.
    rewrite !sorted_by_names_perm; assumption.
Qed.

Lemma in_loaded_names N iol a k eps n :
  In n (map name (loaded N iol a k eps)) <->
  In n N /\ has_match eps iol a k n = true.
Proof.
  unfold has_match; rewrite in_map_iff, existsb_exists; split.
  - intros (e & <- & He); apply in_loaded in He.
    destruct He as (ep & Hep & Hin & Ho).
    rewrite (load_outcome_name _ _ _ _ _ Ho); split; [assumption|].
    exists ep; split; [assumption|].
    unfold loads_ok; rewrite Ho, String.eqb_refl; reflexivity.
  - intros (Hin & ep & Hep & Hb).
    apply andb_true_iff in Hb; destruct Hb as (Hn & Hok).
    apply String.eqb_eq in Hn; subst n; unfold loads_ok in Hok.
    destruct (load_outcome ep iol a k) as [e|] eqn:Ho; [|discriminate].
    exists e; split; [eapply load_outcome_name; eassumption|].
    apply in_loaded; exists ep; auto.
Qed.

Lemma loaded_names_NoDup N iol a k eps :
  NoDup (map ep_name eps) -> NoDup (map name (loaded N iol a k eps)).
Proof.
  induction eps as [|ep eps IH]; simpl; intros H; [constructor|].
  inversion H as [|? ? Hnot Hnd]; subst.
  destruct (py_in (ep_name ep) N); [|apply IH; assumption].
  destruct (load_outcome ep iol a k) as [e|] eqn:Ho; [|apply IH; assumption].
  simpl; constructor; [|apply IH; assumption].
  rewrite (load_outcome_name _ _ _ _ _ Ho); intros Hin.
  apply in_map_iff in Hin; destruct Hin as (e' & He' & Hin).
  pose proof (loaded_names_discovered N iol a k eps) as Hd.
  rewrite Forall_forall in Hd; apply Hd in Hin.
  rewrite He' in Hin; contradiction.
Qed.

Lemma idx_inj N n1 n2 : In n1 N -> In n2 N -> idx N n1 = idx N n2 -> n1 = n2.
Proof.
  intros H1 H2 E.
  rewrite <- (nth_idx N n1 H1), <- (nth_idx N n2 H2), E; reflexivity.
Qed.

(** With distinct keys, the sorted list does not depend on the order of the
    input at all. *)
Lemma sorted_perm_nodup_eq {A} (l1 : list (nat * A)) : forall l2,
  StronglySorted key_le l1 -> StronglySorted key_le l2 ->
  Permutation l1 l2 -> NoDup (map fst l1) -> l1 = l2.
Proof.
  induction l1 as [|p l1 IH]; intros l2 H1 H2 HP Hnd.
  - apply Permutation_nil in HP; congruence.
  - destruct l2 as [|q l2].
    + apply Permutation_sym, Permutation_nil in HP; discriminate.
    + inversion H1 as [|? ? Hs1 Hf1]; inversion H2 as [|? ? Hs2 Hf2]; subst.
      inversion Hnd as [|? ? Hnot Hnd']; subst.
      assert (p = q).
      { assert (Hq : In q (p :: l1))
          by (apply (Permutation_in _ (Permutation_sym HP)); left; reflexivity).
        assert (Hp : In p (q :: l2))
          by (apply (Permutation_in _ HP); left; reflexivity).
        destruct Hq as [Hq|Hq]; [assumption|].
        destruct Hp as [Hp|Hp]; [congruence|].
        rewrite Forall_forall in Hf1, Hf2.
        specialize (Hf1 _ Hq); specialize (Hf2 _ Hp); unfold key_le in *.
        exfalso; apply Hnot.
        replace (fst p) with (fst q) by lia.
        apply in_map; assumption. }
      subst q; f_equal.
      apply IH; try assumption.
      eapply Permutation_cons_inv; eassumption.
Qed.

Lemma sorted_by_names_perm_invariant N (l l' : list Extension) :
  Forall (fun x => In (name x) N) l -> NoDup (map name l) ->
  Permutation l l' ->
  sorted_by_names N l = sorted_by_names N l'.
Proof.
  intros HN Hnd HP; unfold sorted_by_names; f_equal.
  apply sorted_perm_nodup_eq.
  - apply sort_decorated_sorted.
  - apply sort_decorated_sorted.
  - rewrite !sort_decorated_perm; apply Permutation_map; assumption.
  - eapply Permutation_NoDup;
      [apply Permutation_map, Permutation_sym, sort_decorated_perm|].
    rewrite map_map; simpl.
    rewrite <- (map_map name (idx N)).
    apply NoDup_map_NoDup_ForallPairs; [|assumption].
    intros n1 n2 Hn1 Hn2; apply idx_inj.
    + apply in_map_iff in Hn1; destruct Hn1 as (x & <- & Hx).
      rewrite Forall_forall in HN; auto.
    + apply in_map_iff in Hn2; destruct Hn2 as (x & <- & Hx).
      rewrite Forall_forall in HN; auto.
Qed.

(** C5: with [name_order], construction succeeds whatever the order in
    which the entry points are discovered, the names of the extensions come
    in the order of their first positions in the allow-list, and they are
    the same for every discovery order.  When neither the allow-list nor
    the discovered names repeat a name, the names of the manager are
    exactly the names of the allow-list that have a loadable entry point,
    as the allow-list orders them (names without one are left out), and the
    whole sequence of extensions is the same for every discovery order. *)
Theorem C5_name_order iter iter' ns N iol a k t u :
  Permutation (iter ns) (iter' ns) ->
  exists m m' t' u',
    NamedExtensionManager_new iter ns N iol a k true t = (Ok m, t') /\
    NamedExtensionManager_new iter' ns N iol a k true u = (Ok m', u') /\
    ExtensionManager_names m = ExtensionManager_names m' /\
    Forall (fun n => In n N) (ExtensionManager_names m) /\
    StronglySorted le (map (idx N) (ExtensionManager_names m)) /\
    (NoDup N -> NoDup (map ep_name (iter ns)) ->
     ExtensionManager_names m = filter (has_match (iter ns) iol a k) N /\
     extensions m = extensions m').
Proof.
  intros HP; rewrite !Named_new_run; do 4 eexists.
  split; [reflexivity|]; split; [reflexivity|].
  unfold ExtensionManager_names; simpl.
  pose proof (loaded_names_allowed N iol a k (iter ns)) as Hall.
  pose proof (loaded_perm N iol a k _ _ HP) as HPl.
  assert (Hsub : Forall (fun n => In n N)
                   (map name (sorted_by_names N (loaded N iol a k (iter ns))))).
  { apply Forall_map.
    eapply Permutation_Forall;
      [apply Permutation_sym, sorted_by_names_perm | exact Hall]. }
  split; [apply sorted_names_perm_invariant; assumption|].
  split; [exact Hsub|].
  split; [apply sorted_by_names_sorted|].
  intros HndN HndD.
  pose proof (loaded_names_NoDup N iol a k _ HndD) as HndL.
  split; [|apply sorted_by_names_perm_invariant; assumption].
  apply (names_sorted_perm_eq N).
  - exact Hsub.
  - apply sorted_by_names_sorted.
  - apply filter_idx_sorted; assumption.
  - apply NoDup_Permutation.
    + eapply Permutation_NoDup;
        [apply Permutation_map, Permutation_sym, sorted_by_names_perm|].
      assumption.
    + apply NoDup_filter; assumption.
    + intros n; rewrite filter_In, <- in_loaded_names; split; intros Hn;
        (eapply Permutation_in; [|exact Hn]);
        [apply Permutation_map, sorted_by_names_perm
        |apply Permutation_map, Permutation_sym, sorted_by_names_perm].
Qed.

Lemma C5_name_order_witness :
  exists m m' t' u',
    NamedExtensionManager_new
      (registry [ep_class "a" "m:A"; ep_class "b" "m:B"; ep_class "c" "m:C"]
         "X") "X" ["c"; "a"] false [] [] true [] = (Ok m, t') /\
    NamedExtensionManager_new
      (registry [ep_class "c" "m:C"; ep_class "b" "m:B"; ep_class "a" "m:A"]
         "X") "X" ["c"; "a"] false [] [] true [] = (Ok m', u') /\
    ExtensionManager_names m = ["c"; "a"] /\
    extensions m = extensions m'.
Proof.
  assert (HP : Permutation
                 (registry [ep_class "a" "m:A"; ep_class "b" "m:B";
                            ep_class "c" "m:C"] "X" "X")
                 (registry [ep_class "c" "m:C"; ep_class "b" "m:B";
                            ep_class "a" "m:A"] "X" "X")).
  { simpl.
    apply (perm_trans (l' := [ep_class "b" "m:B"; ep_class "a" "m:A";
                              ep_class "c" "m:C"])); [apply perm_swap|].
    apply (perm_trans (l' := [ep_class "b" "m:B"; ep_class "c" "m:C";
                              ep_class "a" "m:A"]));
      [apply perm_skip, perm_swap | apply perm_swap]. }
  destruct (C5_name_order
              (registry [ep_class "a" "m:A"; ep_class "b" "m:B";
                         ep_class "c" "m:C"] "X")
              (registry [ep_class "c" "m:C"; ep_class "b" "m:B";
                         ep_class "a" "m:A"] "X")
              "X" ["c"; "a"] false [] [] [] [] HP)
    as (m & m' & t' & u' & Hm & Hm' & _ & _ & _ & Hnd).
  destruct Hnd as (Hnames & Hext).
  - repeat constructor; simpl; intuition discriminate.
  - repeat constructor; simpl; intuition discriminate.
  - exists m, m', t', u'.
    split; [exact Hm|]; split; [exact Hm'|]; split; [|exact Hext].
    rewrite Hnames; reflexivity.
Defined.

(** ** [DriverManager] against [NamedExtensionManager] *)

(** Two entry points named [d], the first of which cannot be imported.  A
    [NamedExtensionManager] logs the failure and keeps the second, which
    passes the validation; the [DriverManager] stops at the first and
    raises. *)
Lemma C8_isolation_counterexample :
  Named_then_validation
    (registry [ep_broken "d" "m:A"; ep_class "d" "n:B"] "X") "X" "d" false []
    [] [] =
  (Ok (built DriverManager "X" ["d"]
         [{| name := "d"; entry_point_target := "n:B"; plugin := VClass "n:B";
             obj := VNone |}]),
   [Resolve "d" "m:A";
    LogError "d" (Exn "ImportError" "No module named m:A");
    Resolve "d" "n:B"]) /\
  (exists e,
     DriverManager_new
       (registry [ep_broken "d" "m:A"; ep_class "d" "n:B"] "X") "X" "d" false
       [] [] [] = (Raise e, [Resolve "d" "m:A"])) /\
  ~ Driver_is_Named_then_validation.
Proof.
  split; [reflexivity|]; split; [eexists; reflexivity|].
  intros H.
  specialize (H (registry [ep_broken "d" "m:A"; ep_class "d" "n:B"] "X") "X"
                "d" false [] [] []).
  vm_compute in H; discriminate.
Qed.

(** C8 (amended): when every discovered entry point bearing the requested
    name loads without error, constructing a [DriverManager] gives exactly
    the manager and the effects of constructing a [NamedExtensionManager]
    on the one-name allow-list (same options, no reordering) and then
    applying the cardinality validation.  When one of them fails to load,
    the two differ: the [NamedExtensionManager] is still constructed, the
    failure being skipped, and the construction of the [DriverManager]
    raises. *)
Theorem C8_driver_refines_named iter ns n iol a k t :
  (Forall (fun ep => ep_name ep = n -> loads_ok ep iol a k = true) (iter ns) ->
   DriverManager_new iter ns n iol a k t =
   Named_then_validation iter ns n iol a k t) /\
  (Exists (fun ep => ep_name ep = n /\ loads_ok ep iol a k = false) (iter ns) ->
   (exists e t', DriverManager_new iter ns n iol a k t = (Raise e, t')) /\
   (exists m t',
      NamedExtensionManager_new iter ns [n] iol a k false t = (Ok m, t'))).
Proof.
  split.
  - intros HF.
    assert (HF' : Forall (fun ep => In (ep_name ep) [n] ->
                                    loads_ok ep iol a k = true) (iter ns)).
    { eapply Forall_impl; [|exact HF].
      intros ep Hep [E|[]]; apply Hep; congruence. }
    rewrite Driver_new_unfold, Driver_loading_ok by assumption.
    unfold Named_then_validation, bind; rewrite Named_new_run.
    unfold cardinality_validation; simpl extensions.
    rewrite (Driver_init_plugins_run _ _ _ n ns) by reflexivity.
    rewrite (Driver_init_plugins_run _ _ _ n ns) by reflexivity.
    destruct (loaded [n] iol a k (iter ns)) as [|e [|e' l]]; reflexivity.
  - intros HE; split.
    + destruct (Driver_loading_fail iter ns n iol a k t) as (e & t' & E).
      * eapply Exists_impl; [|exact HE].
        intros ep (Hn & Hbad); split; [left; congruence | assumption].
      * rewrite Driver_new_unfold, E; eauto.
    + rewrite Named_new_run; eauto.
Qed.

Lemma C8_driver_refines_named_witness :
  DriverManager_new (registry [ep_class "d" "m:A"; ep_class "e" "m:E"] "X")
    "X" "d" true [] [] [] =
  Named_then_validation
    (registry [ep_class "d" "m:A"; ep_class "e" "m:E"] "X") "X" "d" true []
    [] [].
Proof.
  apply (proj1 (C8_driver_refines_named
                  (registry [ep_class "d" "m:A"; ep_class "e" "m:E"] "X")
                  "X" "d" true [] [] [])).
  repeat constructor.
Defined.

(** ** The tests of [tests/test_named.py] *)

(** [test_named]: the one allowed name is loaded, with invocation. *)
Example test_named :
  exists m t,
    NamedExtensionManager_new
      (registry [ep_class "t1" "stevedore.tests.test_extension:FauxExtension";
                 ep_class "t2" "stevedore.tests.test_extension:FauxExtension"]
         "stevedore.test.extension")
      "stevedore.test.extension" ["t1"] true [VStr "a"] [("b", VStr "B")]
      false [] = (Ok m, t) /\
    ExtensionManager_names m = ["t1"].
Proof. do 2 eexists; split; reflexivity. Qed.

(** [test_enabled_before_load]: a name that no entry point bears; nothing is
    resolved, no plugin is called, and no name is loaded. *)
Example test_enabled_before_load :
  exists m,
    NamedExtensionManager_new
      (registry [ep_class "t1" "stevedore.tests.test_extension:FauxExtension";
                 ep_class "t2" "stevedore.tests.test_extension:FauxExtension"]
         "stevedore.test.extension")
      "stevedore.test.extension" ["no-such-extension"] true [VStr "a"]
      [("b", VStr "B")] false [] = (Ok m, []) /\
    ExtensionManager_names m = [].
Proof. eexists; split; reflexivity. Qed.

(** * Further properties of the two modules *)

(** ** A driver and the entry points that bear its name *)

Lemma loaded_as_filter n iol a k eps :
  loaded [n] iol a k eps =
  flat_map (fun ep => match load_outcome ep iol a k with
                      | Ok e => [e]
                      | Raise _ => []
                      end)
    (filter (fun ep => String.eqb (ep_name ep) n) eps).
Proof.
  induction eps as [|ep eps IH]; simpl; [reflexivity|].
  rewrite orb_false_r.
  destruct (String.eqb (ep_name ep) n); simpl; rewrite IH; reflexivity.
Qed.

Lemma loop_events_as_filter n iol a k eps :
  loop_events [n] iol a k eps =
  flat_map (fun ep => load_events ep iol ++
                      match load_outcome ep iol a k with
                      | Ok _ => []
                      | Raise e => [LogError (ep_name ep) e]
                      end)%list
    (filter (fun ep => String.eqb (ep_name ep) n) eps).
Proof.
  induction eps as [|ep eps IH]; simpl; [reflexivity|].
  rewrite orb_false_r.
  destruct (String.eqb (ep_name ep) n); simpl; rewrite IH; reflexivity.
Qed.

Lemma candidates_ok_of_single n iol a k eps ep :
  filter (fun ep => String.eqb (ep_name ep) n) eps = [ep] ->
  loads_ok ep iol a k = true ->
  Forall (fun ep => In (ep_name ep) [n] -> loads_ok ep iol a k = true) eps.
Proof.
  intros HF Hok; apply Forall_forall; intros ep' Hin [E|[]].
  assert (H : In ep' (filter (fun ep => String.eqb (ep_name ep) n) eps)).
  { apply filter_In; split; [assumption|].
    apply String.eqb_eq; congruence. }
  rewrite HF in H; destruct H as [<-|[]]; assumption.
Qed.

Lemma load_events_ok ep iol a k e :
  load_outcome ep iol a k = Ok e ->
  load_events ep iol =
  Resolve (ep_name ep) (ep_target ep) ::
  (if iol then [Invoke (ep_name ep) (ep_target ep)] else []).
Proof.
  unfold load_outcome, load_events.
  destruct (ep_load ep); [reflexivity | discriminate].
Qed.

Lemma load_outcome_target ep iol a k e :
  load_outcome ep iol a k = Ok e -> entry_point_target e = ep_target ep.
Proof.
  unfold load_outcome; destruct (ep_load ep); [|discriminate].
  destruct iol; [destruct (ep_call ep a k); [|discriminate]|];
    intros [= <-]; reflexivity.
Qed.

(** X1: the constructor of [DriverManager] returns a manager exactly when
    one, and only one, of the entry points discovered under the namespace
    bears the requested name, and that entry point loads. *)
Theorem X1_driver_constructed_iff iter ns n iol a k t :
  (exists m t', DriverManager_new iter ns n iol a k t = (Ok m, t')) <->
  (exists ep,
      filter (fun ep => String.eqb (ep_name ep) n) (iter ns) = [ep] /\
      loads_ok ep iol a k = true).
Proof.
  split.
  - intros (m & t' & H); apply Driver_new_ok_inv in H.
    destruct H as (e & Hl & _ & _ & HF).
    pose proof (loaded_targets n iol a k _ HF) as Ht.
    apply (f_equal (@length _)) in Ht; rewrite !length_map, Hl in Ht.
    destruct (filter _ (iter ns)) as [|ep [|ep' l]] eqn:Ef;
      simpl in Ht; try discriminate.
    exists ep; split; [reflexivity|].
    assert (Hin : In ep (filter (fun ep => String.eqb (ep_name ep) n)
                           (iter ns)))
      by (rewrite Ef; left; reflexivity).
    apply filter_In in Hin; destruct Hin as (Hin & Hn).
    rewrite Forall_forall in HF; apply HF; [assumption|].
    apply String.eqb_eq in Hn; left; congruence.
  - intros (ep & Hf & Hok).
    rewrite Driver_new_unfold, Driver_loading_ok
      by (eapply candidates_ok_of_single; eassumption).
    rewrite loaded_as_filter, Hf; simpl.
    unfold loads_ok in Hok.
    destruct (load_outcome ep iol a k); [|discriminate]; simpl.
    rewrite (Driver_init_plugins_run _ _ _ n ns) by reflexivity.
    eauto.
Qed.

Lemma X1_driver_constructed_iff_witness :
  exists m t',
    DriverManager_new
      (registry [ep_class "a" "m:A"; ep_broken "b" "m:B"; ep_class "d" "m:D"]
         "X") "X" "d" true [] [] [] = (Ok m, t').
Proof.
  apply (proj2 (X1_driver_constructed_iff
                  (registry [ep_class "a" "m:A"; ep_broken "b" "m:B";
                             ep_class "d" "m:D"] "X") "X" "d" true [] [] [])).
  exists (ep_class "d" "m:D"); split; reflexivity.
Defined.

(** X2: when the requested name is borne by one entry point only and that
    entry point loads, the manager holds the extension made from it, which
    bears the requested name, and the construction has resolved that entry
    point once, called its plugin once if invocation was asked for, and
    done nothing else: no other entry point is touched, nothing is logged. *)
Theorem X2_driver_construction_result iter ns n iol a k t ep e :
  filter (fun ep => String.eqb (ep_name ep) n) (iter ns) = [ep] ->
  load_outcome ep iol a k = Ok e ->
  DriverManager_new iter ns n iol a k t =
  (Ok (built DriverManager ns [n] [e]),
   (t ++ Resolve n (ep_target ep) ::
         (if iol then [Invoke n (ep_target ep)] else []))%list) /\
  name e = n /\ entry_point_target e = ep_target ep.
Proof.
  intros Hf Ho.
  assert (Hn : ep_name ep = n).
  { assert (Hin : In ep (filter (fun ep => String.eqb (ep_name ep) n)
                           (iter ns)))
      by (rewrite Hf; left; reflexivity).
    apply filter_In in Hin; apply String.eqb_eq; tauto. }
  split; [|split].
  - rewrite Driver_new_unfold, Driver_loading_ok.
    + rewrite loaded_as_filter, loop_events_as_filter, Hf.
      cbn [flat_map].
      rewrite Ho, (load_events_ok _ _ _ _ _ Ho), Hn, !app_nil_r.
      rewrite (Driver_init_plugins_run _ [e] _ n ns) by reflexivity.
      reflexivity.
    + eapply candidates_ok_of_single; [eassumption|].
      unfold loads_ok; rewrite Ho; reflexivity.
  - rewrite (load_outcome_name _ _ _ _ _ Ho); assumption.
  - eapply load_outcome_target; eassumption.
Qed.

Lemma X2_driver_construction_result_witness :
  DriverManager_new
    (registry [ep_class "a" "m:A"; ep_broken "b" "m:B"; ep_class "d" "m:D"]
       "X") "X" "d" true [] [] [] =
  (Ok (built DriverManager "X" ["d"]
         [{| name := "d"; entry_point_target := "m:D"; plugin := VClass "m:D";
             obj := VInstance "m:D" true |}]),
   [Resolve "d" "m:D"; Invoke "d" "m:D"]).
Proof.
  apply (proj1 (X2_driver_construction_result
                  (registry [ep_class "a" "m:A"; ep_broken "b" "m:B";
                             ep_class "d" "m:D"] "X") "X" "d" true [] [] []
                  (ep_class "d" "m:D")
                  {| name := "d"; entry_point_target := "m:D";
                     plugin := VClass "m:D"; obj := VInstance "m:D" true |}
                  eq_refl eq_refl)).
Defined.

(** ** A load that does not isolate failures *)





(** An entry point whose import is interrupted from the keyboard: the
    [KeyboardInterrupt] is not an [Exception] and leaves
    [DriverManager._load_plugins] unwrapped. *)
Example load_plugins_lets_KeyboardInterrupt_through :
  DriverManager__load_plugins
    (registry [{| ep_name := "d"; ep_target := "m:D";
                  ep_load := Raise (Exn "KeyboardInterrupt" "stop");
                  ep_call := fun _ _ => Ok VNone |}] "X")
    (under_construction DriverManager "X" ["d"]) false [] [] (Some ["d"]) [] =
  (Raise (Exn "KeyboardInterrupt" "stop"), [Resolve "d" "m:D"]).
Proof. reflexivity. Qed.

(** ** The order and the choice of the extensions of a named manager *)

Lemma loaded_names_filter N iol a k eps :
  map name (loaded N iol a k eps) =
  map ep_name (filter (fun ep => py_in (ep_name ep) N && loads_ok ep iol a k)
                 eps).
Proof.
  induction eps as [|ep eps IH]; simpl; [reflexivity|].
  unfold loads_ok at 1.
  destruct (py_in (ep_name ep) N); simpl; [|exact IH].
  destruct (load_outcome ep iol a k) as [e|] eqn:Ho; simpl; [|exact IH].
  rewrite (load_outcome_name _ _ _ _ _ Ho), IH; reflexivity.
Qed.

Lemma loaded_targets_filter N iol a k eps :
  map entry_point_target (loaded N iol a k eps) =
  map ep_target
    (filter (fun ep => py_in (ep_name ep) N && loads_ok ep iol a k) eps).
Proof.
  induction eps as [|ep eps IH]; simpl; [reflexivity|].
  unfold loads_ok at 1.
  destruct (py_in (ep_name ep) N); simpl; [|exact IH].
  destruct (load_outcome ep iol a k) as [e|] eqn:Ho; simpl; [|exact IH].
  rewrite (load_outcome_target _ _ _ _ _ Ho), IH; reflexivity.
Qed.

(** X4: without [name_order], a [NamedExtensionManager] keeps its
    extensions in the order of discovery: their names and targets are those
    of the discovered entry points whose name is in the allow-list and
    which load, in the order the discovery yields them, the order of the
    allow-list playing no part. *)
Theorem X4_named_keeps_discovery_order iter ns N iol a k t :
  exists m t',
    NamedExtensionManager_new iter ns N iol a k false t = (Ok m, t') /\
    ExtensionManager_names m =
    map ep_name
      (filter (fun ep => py_in (ep_name ep) N && loads_ok ep iol a k)
         (iter ns)) /\
    map entry_point_target (extensions m) =
    map ep_target
      (filter (fun ep => py_in (ep_name ep) N && loads_ok ep iol a k)
         (iter ns)).
Proof.
  rewrite Named_new_run; do 2 eexists; split; [reflexivity|].
  unfold ExtensionManager_names; simpl; split.
  - apply loaded_names_filter.
  - apply loaded_targets_filter.
Qed.

(** X5: [name_order] changes nothing but the order.  With and without it
    the construction has the same effects, and the two managers hold the
    same extensions, each as many times, and agree on every other
    attribute. *)
Theorem X5_name_order_only_permutes iter ns N iol a k t :
  exists m ms t',
    NamedExtensionManager_new iter ns N iol a k false t = (Ok m, t') /\
    NamedExtensionManager_new iter ns N iol a k true t = (Ok ms, t') /\
    Permutation (extensions ms) (extensions m) /\
    ms = set_extensions m (extensions ms).
Proof.
  rewrite !Named_new_run; do 3 eexists.
  split; [reflexivity|]; split; [reflexivity|]; simpl.
  split; [apply sorted_by_names_perm | reflexivity].
Qed.

(** The stable sort leaves the elements of one key in the order they had. *)
Lemma insert_by_key_filter {A} k0 k (x : A) l :
  filter (fun p => Nat.eqb (fst p) k0) (insert_by_key k x l) =
  ((if Nat.eqb k k0 then [(k, x)] else []) ++
   filter (fun p => Nat.eqb (fst p) k0) l)%list.
Proof.
  induction l as [|[k' y] l IH]; simpl.
  - destruct (Nat.eqb k k0); reflexivity.
  - destruct (Nat.ltb_spec k' k) as [Hlt|Hge]; simpl.
    + rewrite IH.
      destruct (Nat.eqb_spec k k0) as [->|_]; [|reflexivity].
      destruct (Nat.eqb_spec k' k0); [lia | reflexivity].
    + destruct (Nat.eqb k k0); reflexivity.
Qed.

Lemma sort_decorated_filter {A} k0 (l : list (nat * A)) :
  filter (fun p => Nat.eqb (fst p) k0) (sort_decorated l) =
  filter (fun p => Nat.eqb (fst p) k0) l.
Proof.
  induction l as [|[k x] l IH]; simpl; [reflexivity|].
  rewrite insert_by_key_filter, IH.
  destruct (Nat.eqb k k0); reflexivity.
Qed.

Lemma filter_map_snd {A B} (f : B -> bool) (l : list (A * B)) :
  filter f (map snd l) = map snd (filter (fun p => f (snd p)) l).
Proof.
  induction l as [|p l IH]; simpl; [reflexivity|].
  destruct (f (snd p)); simpl; congruence.
Qed.

Lemma sorted_by_names_stable N n (l : list Extension) :
  Forall (fun x => In (name x) N) l ->
  filter (fun x => String.eqb (name x) n) (sorted_by_names N l) =
  filter (fun x => String.eqb (name x) n) l.
Proof.
  intros HN; unfold sorted_by_names.
  set (d := map (fun x => (name_key N x, x)) l).
  assert (Hd : Forall (fun p => fst p = idx N (name (snd p)) /\
                                In (name (snd p)) N) d).
  { subst d; apply Forall_map; eapply Forall_impl; [|exact HN].
    simpl; intros x Hx; split; [reflexivity | assumption]. }
  assert (Hs : Forall (fun p => fst p = idx N (name (snd p)) /\
                                In (name (snd p)) N) (sort_decorated d)).
  { eapply Permutation_Forall;
      [apply Permutation_sym, sort_decorated_perm | exact Hd]. }
  assert (Hl : filter (fun x => String.eqb (name x) n) l =
               map snd (filter (fun p => String.eqb (name (snd p)) n) d)).
  { rewrite <- (filter_map_snd (fun x => String.eqb (name x) n)); subst d.
    rewrite map_map; simpl; rewrite map_id; reflexivity. }
  rewrite Hl, (filter_map_snd (fun x => String.eqb (name x) n)); f_equal.
  destruct (py_in n N) eqn:En.
  - apply py_in_In in En.
    assert (Hkey : forall d', Forall (fun p => fst p = idx N (name (snd p)) /\
                                               In (name (snd p)) N) d' ->
              filter (fun p => String.eqb (name (snd p)) n) d' =
              filter (fun p => Nat.eqb (fst p) (idx N n)) d').
    { intros d' Hd'; apply filter_ext_in; intros p Hp.
      rewrite Forall_forall in Hd'; destruct (Hd' p Hp) as (Hk & Hin).
      destruct (String.eqb_spec (name (snd p)) n) as [E|E].
      - rewrite Hk, E; symmetry; apply Nat.eqb_refl.
      - symmetry; apply Nat.eqb_neq; rewrite Hk; intros Hi.
        apply E; eapply idx_inj; eassumption. }
    rewrite (Hkey _ Hs), (Hkey _ Hd); apply sort_decorated_filter.
  - assert (Hnone : forall d', Forall (fun p => fst p = idx N (name (snd p)) /\
                                                In (name (snd p)) N) d' ->
              filter (fun p => String.eqb (name (snd p)) n) d' = []).
    { intros d' Hd'; induction Hd' as [|p d' (_ & Hin) _ IH]; simpl;
        [reflexivity|].
      destruct (String.eqb_spec (name (snd p)) n) as [E|_]; [|exact IH].
      rewrite E in Hin; apply py_in_In in Hin; congruence. }
    rewrite (Hnone _ Hs), (Hnone _ Hd); reflexivity.
Qed.

(** X6: the reordering done under [name_order] is stable: the extensions
    that share a name are, among themselves, in the same order with
    [name_order] as without it, that is, in discovery order. *)
Theorem X6_name_order_stable iter ns N iol a k t n :
  exists m ms t',
    NamedExtensionManager_new iter ns N iol a k false t = (Ok m, t') /\
    NamedExtensionManager_new iter ns N iol a k true t = (Ok ms, t') /\
    filter (fun x => String.eqb (name x) n) (extensions ms) =
    filter (fun x => String.eqb (name x) n) (extensions m).
Proof.
  rewrite !Named_new_run; do 3 eexists.
  split; [reflexivity|]; split; [reflexivity|]; simpl.
  apply sorted_by_names_stable, loaded_names_allowed.
Qed.

Lemma loaded_none N iol a k eps :
  Forall (fun ep => ~ In (ep_name ep) N) eps ->
  loaded N iol a k eps = [] /\ loop_events N iol a k eps = [].
Proof.
  induction 1 as [|ep eps Hep _ (IH1 & IH2)]; simpl; [split; reflexivity|].
  destruct (py_in (ep_name ep) N) eqn:E;
    [apply py_in_In in E; contradiction|].
  simpl; split; assumption.
Qed.

(** X7: when no discovered entry point bears a name of the allow-list --
    and so, always, when the allow-list is empty -- the manager is
    constructed with no extension and the construction has no effect at
    all: nothing is resolved, called or logged, whatever the entry points
    would do on being loaded. *)
Theorem X7_nothing_allowed_nothing_done iter ns N iol a k name_order t :
  (Forall (fun ep => ~ In (ep_name ep) N) (iter ns) ->
   NamedExtensionManager_new iter ns N iol a k name_order t =
   (Ok (built NamedExtensionManager ns N []), t)) /\
  NamedExtensionManager_new iter ns [] iol a k name_order t =
  (Ok (built NamedExtensionManager ns [] []), t).
Proof.
  assert (H : forall N', Forall (fun ep => ~ In (ep_name ep) N') (iter ns) ->
            NamedExtensionManager_new iter ns N' iol a k name_order t =
            (Ok (built NamedExtensionManager ns N' []), t)).
  { intros N' HF; rewrite Named_new_run.
    destruct (loaded_none N' iol a k _ HF) as (-> & ->).
    rewrite app_nil_r; destruct name_order; reflexivity. }
  split; [apply H|].
  apply H, Forall_forall; intros ep _ [].
Qed.

Lemma X7_nothing_allowed_nothing_done_witness :
  NamedExtensionManager_new
    (registry [ep_broken "t1" "m:T1"; ep_class "t2" "m:T2"] "X") "X"
    ["no-such-extension"] true [] [] true [] =
  (Ok (built NamedExtensionManager "X" ["no-such-extension"] []), []).
Proof.
  apply (proj1 (X7_nothing_allowed_nothing_done
                  (registry [ep_broken "t1" "m:T1"; ep_class "t2" "m:T2"] "X")
                  "X" ["no-such-extension"] true [] [] true [])).
  repeat constructor; simpl; intros [H|[]]; discriminate.
Defined.

Lemma loaded_narrow N N' iol a k eps :
  (forall x, In x N -> In x N') ->
  loaded N iol a k eps =
  filter (fun x => py_in (name x) N) (loaded N' iol a k eps).
Proof.
  intros Hsub; induction eps as [|ep eps IH]; simpl; [reflexivity|].
  rewrite filter_app, <- IH; f_equal.
  destruct (py_in (ep_name ep) N) eqn:E.
  - assert (E' : py_in (ep_name ep) N' = true)
      by (apply py_in_In, Hsub, py_in_In; assumption).
    rewrite E'.
    destruct (load_outcome ep iol a k) as [e|] eqn:Ho; [|reflexivity].
    simpl; rewrite (load_outcome_name _ _ _ _ _ Ho), E; reflexivity.
  - destruct (py_in (ep_name ep) N'); [|reflexivity].
    destruct (load_outcome ep iol a k) as [e|] eqn:Ho; [|reflexivity].
    simpl; rewrite (load_outcome_name _ _ _ _ _ Ho), E; reflexivity.
Qed.

(** X8: narrowing the allow-list only removes extensions.  If every name
    of [N] is a name of [N'], the extensions loaded for [N] are those
    loaded for [N'] whose name is in [N], in the same order; two
    allow-lists with the same names, whatever their order and
    repetitions, load the same extensions. *)
Theorem X8_narrower_allow_list iter ns N N' iol a k t :
  (forall x, In x N -> In x N') ->
  exists m m' t1 t2,
    NamedExtensionManager_new iter ns N iol a k false t = (Ok m, t1) /\
    NamedExtensionManager_new iter ns N' iol a k false t = (Ok m', t2) /\
    extensions m = filter (fun x => py_in (name x) N) (extensions m') /\
    ((forall x, In x N' -> In x N) -> extensions m = extensions m').
Proof.
  intros Hsub; rewrite !Named_new_run; do 4 eexists.
  split; [reflexivity|]; split; [reflexivity|]; simpl.
  split; [apply loaded_narrow; assumption|].
  intros Hsup; rewrite (loaded_narrow N N') by assumption.
  apply forallb_filter_id, forallb_forall; intros e He.
  pose proof (loaded_names_allowed N' iol a k (iter ns)) as Hall.
  rewrite Forall_forall in Hall.
  apply py_in_In, Hsup, Hall; assumption.
Qed.

Lemma X8_narrower_allow_list_witness :
  exists m m' t1 t2,
    NamedExtensionManager_new
      (registry [ep_class "a" "m:A"; ep_class "b" "m:B"; ep_class "c" "m:C"]
         "X") "X" ["c"] false [] [] false [] = (Ok m, t1) /\
    NamedExtensionManager_new
      (registry [ep_class "a" "m:A"; ep_class "b" "m:B"; ep_class "c" "m:C"]
         "X") "X" ["a"; "c"] false [] [] false [] = (Ok m', t2) /\
    extensions m = filter (fun x => py_in (name x) ["c"]) (extensions m').
Proof.
  destruct (X8_narrower_allow_list
              (registry [ep_class "a" "m:A"; ep_class "b" "m:B";
                         ep_class "c" "m:C"] "X")
              "X" ["c"] ["a"; "c"] false [] [] [])
    as (m & m' & t1 & t2 & H1 & H2 & H3 & _).
  - simpl; tauto.
  - exists m, m', t1, t2; auto.
Defined.

(** A stable sort does not move the elements of a list already in order. *)
Lemma sort_decorated_id {A} (l : list (nat * A)) :
  StronglySorted key_le l -> sort_decorated l = l.
Proof.
  induction 1 as [|[k x] l Hs IH Hf]; simpl; [reflexivity|].
  rewrite IH; destruct l as [|[k' y] l]; simpl; [reflexivity|].
  inversion Hf as [|? ? Hk _]; subst; unfold key_le in Hk; simpl in Hk.
  destruct (Nat.ltb_spec k' k); [lia | reflexivity].
Qed.

(** X9: [name_order] is without effect on a manager whose extensions
    discovery already yields in the order of the allow-list: construction
    with [name_order] then returns the very manager that construction
    without it returns. *)
Theorem X9_name_order_keeps_ordered iter ns N iol a k t m t' :
  NamedExtensionManager_new iter ns N iol a k false t = (Ok m, t') ->
  StronglySorted le (map (idx N) (ExtensionManager_names m)) ->
  NamedExtensionManager_new iter ns N iol a k true t = (Ok m, t').
Proof.
  rewrite !Named_new_run; intros [= <- <-]; simpl.
  unfold ExtensionManager_names; simpl; intros Hs.
  do 3 f_equal; unfold sorted_by_names.
  rewrite sort_decorated_id.
  - rewrite map_map; simpl; apply map_id.
  - revert Hs; generalize (loaded N iol a k (iter ns)); intros l.
    rewrite map_map.
    induction l as [|x l IH]; simpl; intros Hs; [constructor|].
    inversion Hs as [|? ? Hs' Hf]; subst.
    constructor; [apply IH; assumption|].
    rewrite Forall_map in Hf; rewrite Forall_map; exact Hf.
Qed.

Lemma X9_name_order_keeps_ordered_witness :
  NamedExtensionManager_new
    (registry [ep_class "a" "m:A"; ep_class "b" "m:B"; ep_class "c" "m:C"]
       "X") "X" ["a"; "c"] false [] [] true [] =
  (Ok (built NamedExtensionManager "X" ["a"; "c"]
         [{| name := "a"; entry_point_target := "m:A"; plugin := VClass "m:A";
             obj := VNone |};
          {| name := "c"; entry_point_target := "m:C"; plugin := VClass "m:C";
             obj := VNone |}]),
   [Resolve "a" "m:A"; Resolve "c" "m:C"]).
Proof.
  apply (X9_name_order_keeps_ordered
           (registry [ep_class "a" "m:A"; ep_class "b" "m:B";
                      ep_class "c" "m:C"] "X")
           "X" ["a"; "c"] false [] [] []).
  - reflexivity.
  - simpl; repeat constructor.
Defined.

(** ** Using a constructed driver, and its test double *)

Lemma call_single self func a k t e :
  extensions self = [e] ->
  DriverManager___call__ self func a k t =
  match func e a k with
  | Ok v => (Ok v, t ++ [Callback (name e)])
  | Raise err =>
      if propagate_map_exceptions self
      then (Raise err, t ++ [Callback (name e)])
      else (Ok VNone, t ++ [Callback (name e); LogError (name e) err])
  end%list.
Proof.
  intros He; unfold DriverManager___call__, ExtensionManager_map.
  rewrite He; simpl.
  unfold bind, try_except, emit, lift, ret, raise; simpl.
  destruct (func e a k) as [v|err]; [reflexivity|].
  destruct (propagate_map_exceptions self); simpl; [reflexivity|].
  rewrite <- app_assoc; reflexivity.
Qed.

(** X10: a test instance made, with [make_test_instance], from the
    extension of a manager that the constructor returned stands in for that
    manager: whatever its namespace label, [driver], [names] and
    [__call__] give on it what they give on the manager, and it passes the
    cardinality validation of [_init_plugins] although it has no
    [_names]. *)
Theorem X10_test_instance_like_constructed iter ns n iol a k t m t' :
  DriverManager_new iter ns n iol a k t = (Ok m, t') ->
  exists e,
    extensions m = [e] /\
    forall label,
      DriverManager_driver (DriverManager_make_test_instance e label false) =
      DriverManager_driver m /\
      ExtensionManager_names
        (DriverManager_make_test_instance e label false) =
      ExtensionManager_names m /\
      (forall func a' k' u,
          DriverManager___call__
            (DriverManager_make_test_instance e label false) func a' k' u =
          DriverManager___call__ m func a' k' u) /\
      (forall u,
          cardinality_validation
            (DriverManager_make_test_instance e label false) u =
          (Ok (DriverManager_make_test_instance e label false), u)).
Proof.
  intros H; apply Driver_new_ok_inv in H; destruct H as (e & _ & -> & _).
  exists e; split; [reflexivity|]; intros label.
  split; [reflexivity|]; split; [reflexivity|]; split.
  - intros func a' k' u.
    rewrite (call_single _ func a' k' u e) by reflexivity.
    rewrite (call_single (built DriverManager ns [n] [e]) func a' k' u e)
      by reflexivity.
    reflexivity.
  - intros u; reflexivity.
Qed.

Lemma X10_test_instance_like_constructed_witness :
  exists e,
    extensions
      (built DriverManager "X" ["d"]
         [{| name := "d"; entry_point_target := "m:D"; plugin := VClass "m:D";
             obj := VInstance "m:D" true |}]) = [e] /\
    DriverManager_driver (DriverManager_make_test_instance e "TESTING" false)
    = Ok (VInstance "m:D" true).
Proof.
  destruct (X10_test_instance_like_constructed
              (registry [ep_class "d" "m:D"] "X") "X" "d" true [] [] []
              (built DriverManager "X" ["d"]
                 [{| name := "d"; entry_point_target := "m:D";
                     plugin := VClass "m:D"; obj := VInstance "m:D" true |}])
              [Resolve "d" "m:D"; Invoke "d" "m:D"] eq_refl)
    as (e & He & H).
  exists e; split; [exact He|].
  destruct (H "TESTING") as (Hd & _); rewrite Hd; reflexivity.
Defined.

(** X11: calling a manager that the constructor returned never raises.
    [func] is invoked once, on the extension bearing the requested name;
    the call returns the value of [func], whatever its truth value, and
    when [func] raises the exception is logged and the call returns
    [None]. *)
Theorem X11_constructed_driver_call iter ns n iol a k t m t' func a' k' u :
  DriverManager_new iter ns n iol a k t = (Ok m, t') ->
  exists e,
    extensions m = [e] /\ name e = n /\
    DriverManager___call__ m func a' k' u =
    match func e a' k' with
    | Ok v => (Ok v, u ++ [Callback n])
    | Raise err => (Ok VNone, u ++ [Callback n; LogError n err])
    end%list.
Proof.
  intros H; apply Driver_new_ok_inv in H.
  destruct H as (e & Hl & -> & _ & _).
  assert (Hn : name e = n).
  { pose proof (loaded_names_allowed [n] iol a k (iter ns)) as Hall.
    rewrite Hl in Hall; inversion Hall as [|? ? [E|[]] _]; congruence. }
  exists e; split; [reflexivity|]; split; [assumption|].
  rewrite (call_single _ func a' k' u e) by reflexivity.
  rewrite Hn; reflexivity.
Qed.

Lemma X11_constructed_driver_call_witness :
  DriverManager___call__
    (built DriverManager "X" ["d"]
       [{| name := "d"; entry_point_target := "m:D"; plugin := VClass "m:D";
           obj := VNone |}])
    (fun _ _ _ => Raise (ValueError "boom")) [] [] [] =
  (Ok VNone, [Callback "d"; LogError "d" (ValueError "boom")]).
Proof.
  destruct (X11_constructed_driver_call
              (registry [ep_class "d" "m:D"] "X") "X" "d" false [] [] []
              (built DriverManager "X" ["d"]
                 [{| name := "d"; entry_point_target := "m:D";
                     plugin := VClass "m:D"; obj := VNone |}])
              [Resolve "d" "m:D"]
              (fun _ _ _ => Raise (ValueError "boom")) [] [] [] eq_refl)
    as (e & _ & _ & H).
  exact H.
Defined.
